(** * dhcpkit: structured elements and DHCPv6 messages

    A shallow embedding of [dhcp/parsing.py] (the [StructuredElement]
    framework) and of [dhcpkit/ipv6/messages.py] (the message hierarchy of
    RFC 3315), with the properties of the specification stated over it.

    Python values are modelled as follows: [int] as [Z]; a sequence of
    bytes as [list byte], and an object that holds one as a [byteslike],
    which is a [bytes] object or a [bytearray]: [save] returns a
    [bytearray], a slice of a buffer is of the type of the buffer, and
    [validate] tells the two apart with [isinstance]; [str] as [string];
    [None]-able values as [option]; an exception as the [Raise] outcome of
    a small error monad; mutation of [self] as explicit state passing (a
    method returns the updated instance next to its result); a [while]
    loop as a function with fuel. The declared types [int] and
    [IPv6Address] of the attributes are the types of the model, so the
    [isinstance] tests of [validate] on those hold by construction. *)

From Stdlib Require Import ZArith List String Bool Lia Eqdep_dec.
From Stdlib.Strings Require Import Byte.
From Stdlib Require Import DecimalString.
Import ListNotations.

Local Open Scope string_scope.
Local Open Scope list_scope.
Local Open Scope Z_scope.

(** ** The fragment of the Python runtime the sources rely on *)

Module Py.

(** The exceptions the sources raise, or make the runtime raise. *)
Inductive exn : Type :=
| TypeError (msg : string)
| ValueError (msg : string)
| IndexError (msg : string)
| AttributeError (msg : string)
| AddressValueError (msg : string).

(** The outcome of a call: a value, an exception, or a [while] loop that
    was still running when the fuel of the model ran out. *)
Inductive outcome (A : Type) : Type :=
| Ok (a : A)
| Raise (e : exn)
| NoFuel.

Arguments Ok {A} a.
Arguments Raise {A} e.
Arguments NoFuel {A}.

Definition bind {A B : Type} (m : outcome A) (k : A -> outcome B) : outcome B :=
  match m with
  | Ok a => k a
  | Raise e => Raise e
  | NoFuel => NoFuel
  end.

Definition raises {A : Type} (m : outcome A) : Prop :=
  exists e, m = Raise e.

(** The bytes an object holds, in their order. *)
Definition bytes : Type := list byte.

(** A [bytes] object or a [bytearray]. Indexing, slicing, [len] and
    [bytearray.extend] read the bytes they hold alike;
    [isinstance(b, bytes)] holds for the first only, and a slice is of the
    type of the object it is taken from. *)
Inductive byteslike : Type :=
| Bytes (data : bytes)
| Bytearray (data : bytes).

Definition data_of (b : byteslike) : bytes :=
  match b with
  | Bytes data => data
  | Bytearray data => data
  end.

(** [isinstance(b, bytes)] *)
Definition is_bytes (b : byteslike) : bool :=
  match b with
  | Bytes _ => true
  | Bytearray _ => false
  end.

(** [len(buffer)] *)
Definition len {A : Type} (l : list A) : Z := Z.of_nat (List.length l).

(** An [int] read out of a [bytes] object, and an [int] appended to a
    [bytearray] ([ValueError] outside [range(256)]). *)
Definition int_of_byte (b : byte) : Z := Z.of_N (Byte.to_N b).

Definition byte_of_int (i : Z) : outcome byte :=
  if (0 <=? i) && (i <? 256) then
    match Byte.of_N (Z.to_N i) with
    | Some b => Ok b
    | None => Raise (ValueError "byte must be in range(0, 256)")
    end
  else Raise (ValueError "byte must be in range(0, 256)").

(** [buffer[i]]: a negative index counts from the end. *)
Definition getitem (buffer : bytes) (i : Z) : outcome Z :=
  let i' := if i <? 0 then i + len buffer else i in
  if (0 <=? i') && (i' <? len buffer) then
    match nth_error buffer (Z.to_nat i') with
    | Some b => Ok (int_of_byte b)
    | None => Raise (IndexError "index out of range")
    end
  else Raise (IndexError "index out of range").

(** [buffer[lo:hi]]: both bounds are clamped to the buffer, a negative
    bound counts from the end. *)
Definition slice_bound (n i : Z) : Z :=
  if i <? 0 then Z.max 0 (i + n) else Z.min i n.

Definition slice {A : Type} (buffer : list A) (lo hi : Z) : list A :=
  let lo' := slice_bound (len buffer) lo in
  let hi' := slice_bound (len buffer) hi in
  firstn (Z.to_nat (hi' - lo')) (skipn (Z.to_nat lo') buffer).

(** [buffer[lo:hi]] as an object: a [bytes] object out of a [bytes]
    object, a [bytearray] out of a [bytearray]. *)
Definition sliced (buffer : byteslike) (lo hi : Z) : byteslike :=
  match buffer with
  | Bytes data => Bytes (slice data lo hi)
  | Bytearray data => Bytearray (slice data lo hi)
  end.

(** [str(i)] for an [int], as [str.format] renders it. *)
Definition str (i : Z) : string := NilZero.string_of_int (Z.to_int i).

(** [x or y] on an optional [int]: [None] and [0] are falsy. *)
Definition or_else (x : option Z) (y : Z) : Z :=
  match x with
  | Some v => if v =? 0 then y else v
  | None => y
  end.

End Py.

Import Py.

Declare Scope py_scope.
Delimit Scope py_scope with py.
Notation "x <- m ;; k" := (bind m (fun x => k))
  (at level 61, m at next level, right associativity) : py_scope.
Notation "' pat <- m ;; k" := (bind m (fun x => match x with pat => k end))
  (at level 61, pat pattern, m at next level, right associativity) : py_scope.
Notation "m ;;; k" := (bind m (fun _ => k))
  (at level 61, right associativity) : py_scope.
Local Open Scope py_scope.

(** ** [dhcp/parsing.py]: the occurrence constraints of a container *)

Module Parsing.

Definition infinite : Z := 2 ^ 31 - 1.

Section StructuredElement.

(** The classes that can be registered with [add_may_contain], the
    elements a container can hold, Python's [isinstance] between them,
    [klass.__name__] and [element.__class__.__name__]. *)
Variable Class : Type.
Variable Class_eq_dec : forall a b : Class, {a = b} + {a <> b}.
Variable Element : Type.
Variable isinstance : Element -> Class -> bool.
Variable class_name : Class -> string.
Variable type_name : Element -> string.

(** [cls._may_contain.items()] in the order the mapping yields them:
    a class and its [(min_occurrence, max_occurrence)]. *)
Definition may_contain_items : Type := list (Class * (Z * Z)).

(** [add_may_contain] on the class's own mapping:
    [cls._may_contain[klass] = (min_occurrence, max_occurrence)]. A class
    that is new to the mapping comes after the ones already there; a class
    already there keeps its place. *)
Fixpoint add_may_contain (_may_contain : may_contain_items) (klass : Class)
    (min_occurrence max_occurrence : Z) : may_contain_items :=
  match _may_contain with
  | [] => [(klass, (min_occurrence, max_occurrence))]
  | (k, bounds) :: items =>
      if Class_eq_dec k klass then (klass, (min_occurrence, max_occurrence)) :: items
      else (k, bounds) :: add_may_contain items klass min_occurrence max_occurrence
  end.

(** [get_element_class]: the loop returns [None] at the first entry
    whose [max_occurrence] is below 1, before looking at the element,
    and the class of the first entry the element is an instance of
    otherwise; falling off the loop returns [None]. *)
Fixpoint get_element_class (_may_contain : may_contain_items) (element : Element)
  : option Class :=
  match _may_contain with
  | [] => None
  | (klass, (min_occurrence, max_occurrence)) :: items =>
      if max_occurrence <? 1 then None
      else if isinstance element klass then Some klass
      else get_element_class items element
  end.

Definition may_contain (_may_contain : may_contain_items) (element : Element) : bool :=
  match get_element_class _may_contain element with
  | Some _ => true
  | None => false
  end.

(** [collections.Counter]: a missing key counts 0. *)
Definition Counter : Type := Class -> Z.

Definition Counter_empty : Counter := fun _ => 0.

Definition Counter_incr (c : Counter) (k : Class) : Counter :=
  fun k' => if Class_eq_dec k k' then c k' + 1 else c k'.

(** The first loop of [validate_contains]: classify and count. *)
Fixpoint count_occurrence (self_name : string) (_may_contain : may_contain_items)
    (elements : list Element) (occurrence_counters : Counter) : outcome Counter :=
  match elements with
  | [] => Ok occurrence_counters
  | element :: rest =>
      match get_element_class _may_contain element with
      | None => Raise (ValueError (self_name ++ " cannot contain " ++ type_name element)%string)
      | Some element_class =>
          count_occurrence self_name _may_contain rest
            (Counter_incr occurrence_counters element_class)
      end
  end.

(** The second loop: compare each registered class with its bounds.
    The last message is formatted with [max_occurrence], as in the
    source. *)
Fixpoint check_occurrence (self_name : string) (items : may_contain_items)
    (occurrence_counters : Counter) : outcome unit :=
  match items with
  | [] => Ok tt
  | (element_class, (min_occurrence, max_occurrence)) :: rest =>
      let count := occurrence_counters element_class in
      if count >? max_occurrence then
        if max_occurrence =? 1 then
          Raise (ValueError (self_name ++ " may only contain 1 "
                               ++ class_name element_class)%string)
        else
          Raise (ValueError (self_name ++ " may only contain " ++ str max_occurrence ++ " "
                               ++ class_name element_class ++ "s")%string)
      else if count <? min_occurrence then
        if min_occurrence =? 1 then
          Raise (ValueError (self_name ++ " must contain at least 1 "
                               ++ class_name element_class)%string)
        else
          Raise (ValueError (self_name ++ " must contain at least " ++ str max_occurrence
                               ++ " " ++ class_name element_class ++ "s")%string)
      else check_occurrence self_name rest occurrence_counters
  end.

Definition validate_contains (self_name : string) (_may_contain : may_contain_items)
    (elements : list Element) : outcome unit :=
  occurrence_counters <- count_occurrence self_name _may_contain elements Counter_empty ;;
  check_occurrence self_name _may_contain occurrence_counters.

(** An entry the loop of [get_element_class] walks past: not capped
    below 1, and not a class of the element. *)
Definition passed (element : Element) (entry : Class * (Z * Z)) : Prop :=
  1 <= snd (snd entry) /\ isinstance element (fst entry) = false.

(** The number of [elements] that classify as [klass]: what the
    specification calls the count of a classified kind. *)
Definition classifies_as (_may_contain : may_contain_items) (klass : Class)
    (element : Element) : bool :=
  match get_element_class _may_contain element with
  | Some element_class => if Class_eq_dec element_class klass then true else false
  | None => false
  end.

Definition occurrences (_may_contain : may_contain_items) (elements : list Element)
    (klass : Class) : Z :=
  len (filter (classifies_as _may_contain klass) elements).

End StructuredElement.

Arguments passed {Class Element} isinstance element entry.
Arguments classifies_as {Class} Class_eq_dec {Element} isinstance _may_contain klass element.
Arguments occurrences {Class} Class_eq_dec {Element} isinstance _may_contain elements klass.
Arguments add_may_contain {Class} Class_eq_dec _may_contain klass
  min_occurrence max_occurrence.
Arguments get_element_class {Class Element} isinstance _may_contain element.
Arguments may_contain {Class Element} isinstance _may_contain element.
Arguments Counter_incr {Class} Class_eq_dec c k.
Arguments count_occurrence {Class} Class_eq_dec {Element} isinstance type_name
  self_name _may_contain elements occurrence_counters.
Arguments check_occurrence {Class} class_name self_name items occurrence_counters.
Arguments validate_contains {Class} Class_eq_dec {Element} isinstance class_name type_name
  self_name _may_contain elements.

End Parsing.

(** ** [dhcpkit/ipv6/messages.py]: the messages of RFC 3315 *)

Module Messages.

Import Parsing.

Definition MSG_SOLICIT : Z := 1.
Definition MSG_ADVERTISE : Z := 2.
Definition MSG_REQUEST : Z := 3.
Definition MSG_CONFIRM : Z := 4.
Definition MSG_RENEW : Z := 5.
Definition MSG_REBIND : Z := 6.
Definition MSG_REPLY : Z := 7.
Definition MSG_RELEASE : Z := 8.
Definition MSG_DECLINE : Z := 9.
Definition MSG_RECONFIGURE : Z := 10.
Definition MSG_INFORMATION_REQUEST : Z := 11.
Definition MSG_RELAY_FORW : Z := 12.
Definition MSG_RELAY_REPL : Z := 13.

(** [ipaddress.IPv6Address] of the standard library, as far as the
    messages use it: an address is its 16 packed bytes; the constructor
    takes a [bytes] object of 16 bytes and refuses any other number of
    bytes; a [bytearray] is no packed address to it: the constructor reads
    [str(address)], which for a [bytearray] is no address in text either
    (it starts with [bytearray(b']), and refuses it, with an error text
    that quotes the argument and is not modelled; the multicast addresses
    are ff00::/8. *)
Definition IPv6Address : Type :=
  { address : bytes | Nat.eqb (List.length address) 16 = true }.

Definition packed (a : IPv6Address) : bytes := proj1_sig a.

Definition IPv6Address_new (address : byteslike) : outcome IPv6Address :=
  match address with
  | Bytes address =>
      match bool_dec (Nat.eqb (List.length address) 16) true with
      | left H => Ok (exist _ address H)
      | right _ => Raise (AddressValueError "Packed address must be 16 bytes long")
      end
  | Bytearray _ => Raise (AddressValueError "Not an IPv6 address")
  end.

Definition is_multicast (a : IPv6Address) : bool :=
  match packed a with
  | b :: _ => Byte.eqb b xff
  | [] => false
  end.

(** The concrete classes: the subclasses of [ClientServerMessage], the
    subclasses of [RelayServerMessage], and [UnknownMessage]. *)
Inductive ClientServerVariant : Type :=
| SolicitMessage
| AdvertiseMessage
| RequestMessage
| ConfirmMessage
| RenewMessage
| RebindMessage
| ReplyMessage
| ReleaseMessage
| DeclineMessage
| ReconfigureMessage
| InformationRequestMessage.

Inductive RelayServerVariant : Type :=
| RelayForwardMessage
| RelayReplyMessage.

Inductive MessageClass : Type :=
| class_UnknownMessage
| class_ClientServerMessage (variant : ClientServerVariant)
| class_RelayServerMessage (variant : RelayServerVariant).

(** The class attribute [message_type]. *)
Definition ClientServer_message_type (variant : ClientServerVariant) : Z :=
  match variant with
  | SolicitMessage => MSG_SOLICIT
  | AdvertiseMessage => MSG_ADVERTISE
  | RequestMessage => MSG_REQUEST
  | ConfirmMessage => MSG_CONFIRM
  | RenewMessage => MSG_RENEW
  | RebindMessage => MSG_REBIND
  | ReplyMessage => MSG_REPLY
  | ReleaseMessage => MSG_RELEASE
  | DeclineMessage => MSG_DECLINE
  | ReconfigureMessage => MSG_RECONFIGURE
  | InformationRequestMessage => MSG_INFORMATION_REQUEST
  end.

Definition RelayServer_message_type (variant : RelayServerVariant) : Z :=
  match variant with
  | RelayForwardMessage => MSG_RELAY_FORW
  | RelayReplyMessage => MSG_RELAY_REPL
  end.

Definition class_message_type (klass : MessageClass) : Z :=
  match klass with
  | class_UnknownMessage => 0
  | class_ClientServerMessage variant => ClientServer_message_type variant
  | class_RelayServerMessage variant => RelayServer_message_type variant
  end.

(** [klass.__name__] *)
Definition ClientServer_name (variant : ClientServerVariant) : string :=
  match variant with
  | SolicitMessage => "SolicitMessage"
  | AdvertiseMessage => "AdvertiseMessage"
  | RequestMessage => "RequestMessage"
  | ConfirmMessage => "ConfirmMessage"
  | RenewMessage => "RenewMessage"
  | RebindMessage => "RebindMessage"
  | ReplyMessage => "ReplyMessage"
  | ReleaseMessage => "ReleaseMessage"
  | DeclineMessage => "DeclineMessage"
  | ReconfigureMessage => "ReconfigureMessage"
  | InformationRequestMessage => "InformationRequestMessage"
  end.

Definition RelayServer_name (variant : RelayServerVariant) : string :=
  match variant with
  | RelayForwardMessage => "RelayForwardMessage"
  | RelayReplyMessage => "RelayReplyMessage"
  end.

Definition MessageClass_name (klass : MessageClass) : string :=
  match klass with
  | class_UnknownMessage => "UnknownMessage"
  | class_ClientServerMessage variant => ClientServer_name variant
  | class_RelayServerMessage variant => RelayServer_name variant
  end.

(** Modelled from the spec: [dhcpkit.ipv6.message_registry] is not among
    the sources. It is a mapping from the wire tag to the concrete class,
    filled by the [register] calls that close [messages.py]; [register]
    files a class under its class attribute [message_type], and a later
    registration of a tag would replace an earlier one. *)
Definition register (registry : list (Z * MessageClass)) (klass : MessageClass)
  : list (Z * MessageClass) :=
  (class_message_type klass, klass) :: registry.

Definition registry : list (Z * MessageClass) :=
  fold_left register
    [ class_ClientServerMessage SolicitMessage;
      class_ClientServerMessage AdvertiseMessage;
      class_ClientServerMessage RequestMessage;
      class_ClientServerMessage ConfirmMessage;
      class_ClientServerMessage RenewMessage;
      class_ClientServerMessage RebindMessage;
      class_ClientServerMessage ReplyMessage;
      class_ClientServerMessage ReleaseMessage;
      class_ClientServerMessage DeclineMessage;
      class_ClientServerMessage ReconfigureMessage;
      class_ClientServerMessage InformationRequestMessage;
      class_RelayServerMessage RelayForwardMessage;
      class_RelayServerMessage RelayReplyMessage ]
    [].

(** [registry.get(key, default)] *)
Definition registry_get (key : Z) (default : MessageClass) : MessageClass :=
  match find (fun entry => fst entry =? key) registry with
  | Some entry => snd entry
  | None => default
  end.

(** [Message.determine_class] *)
Definition determine_class (buffer : byteslike) (offset : Z) : outcome MessageClass :=
  message_type <- getitem (data_of buffer) offset ;;
  Ok (registry_get message_type class_UnknownMessage).

(** The option catalogue ([dhcpkit.ipv6.options]) is not among the
    sources. [Opt] stands for the options other than the relay message
    option, which the messages single out.

    The instances: an [UnknownMessage] holds its own [message_type]; a
    client-server message reads it from its class; a relay message starts
    with the one of its class and [load_from] assigns it. *)
Inductive Message (Opt : Type) : Type :=
| UnknownMessage (message_type : Z) (message_data : byteslike)
| ClientServerMessage (variant : ClientServerVariant)
    (transaction_id : byteslike) (options : list (Option Opt))
| RelayServerMessage (variant : RelayServerVariant) (message_type : Z)
    (hop_count : Z) (link_address peer_address : option IPv6Address)
    (options : list (Option Opt))
with Option (Opt : Type) : Type :=
| RelayMessageOption (relayed_message : Message Opt)
| OtherOption (o : Opt).

Arguments UnknownMessage {Opt} message_type message_data.
Arguments ClientServerMessage {Opt} variant transaction_id options.
Arguments RelayServerMessage {Opt} variant message_type hop_count
  link_address peer_address options.
Arguments RelayMessageOption {Opt} relayed_message.
Arguments OtherOption {Opt} o.

(** What the messages need from the option catalogue: the classes
    registered with [add_may_contain] and [isinstance] on them, the names
    used in error messages, each message class's [_may_contain.items()],
    [Option.parse(buffer, offset=...)], the bytes that [option.save()]
    returns ([bytearray.extend] reads nothing else of it),
    [option.validate()], [getattr(option, 'iaid', None)] and
    [option.echo_to_relay]. The type of an [iaid] is declared with the
    option classes: it is taken as a parameter, with what [validate] uses
    of it, which is its truth value, [==] and how [str.format] renders
    it. *)
Class OptionCatalogue (Opt : Type) : Type := {
  OptionClass : Type;
  OptionClass_eq_dec : forall a b : OptionClass, {a = b} + {a <> b};
  isinstance : Option Opt -> OptionClass -> bool;
  class_name : OptionClass -> string;
  type_name : Option Opt -> string;
  _may_contain : MessageClass -> may_contain_items OptionClass;
  Option_parse : byteslike -> Z -> outcome (Z * Option Opt);
  Option_save : Option Opt -> outcome bytes;
  Option_validate : Option Opt -> outcome unit;
  IAID : Type;
  IAID_eq_dec : forall a b : IAID, {a = b} + {a <> b};
  IAID_truth : IAID -> bool;
  IAID_str : IAID -> string;
  iaid : Option Opt -> option IAID;
  echo_to_relay : Option Opt -> bool
}.

Section Messages.

Context {Opt : Type} {catalogue : OptionCatalogue Opt}.

Local Abbreviation Message := (Message Opt).
Local Abbreviation Option := (Option Opt).

(** [type(self)] *)
Definition type_of (self : Message) : MessageClass :=
  match self with
  | UnknownMessage _ _ => class_UnknownMessage
  | ClientServerMessage variant _ _ => class_ClientServerMessage variant
  | RelayServerMessage variant _ _ _ _ _ => class_RelayServerMessage variant
  end.

Definition options_of (self : Message) : list Option :=
  match self with
  | UnknownMessage _ _ => []
  | ClientServerMessage _ _ options => options
  | RelayServerMessage _ _ _ _ _ options => options
  end.

(** [isinstance(m, ClientServerMessage)] and
    [isinstance(m, RelayForwardMessage)] *)
Definition is_ClientServerMessage (m : Message) : bool :=
  match m with
  | ClientServerMessage _ _ _ => true
  | _ => false
  end.

Definition is_RelayForwardMessage (m : Message) : bool :=
  match m with
  | RelayServerMessage RelayForwardMessage _ _ _ _ _ => true
  | _ => false
  end.

(** Induction on a message through the messages its relay message
    options embed. *)

Section Message_nested_ind.

Variable P : Message -> Prop.

Definition relayed_P (opt : Option) : Prop :=
  match opt with
  | RelayMessageOption inner => P inner
  | OtherOption _ => True
  end.

Hypothesis P_Unknown : forall message_type message_data,
    P (UnknownMessage message_type message_data).
Hypothesis P_ClientServer : forall variant transaction_id options,
    Forall relayed_P options -> P (ClientServerMessage variant transaction_id options).
Hypothesis P_RelayServer :
  forall variant message_type hop_count link_address peer_address options,
    Forall relayed_P options ->
    P (RelayServerMessage variant message_type hop_count link_address peer_address
         options).

Fixpoint Message_nested_ind (m : Message) : P m :=
  let relayed (opt : Option) : relayed_P opt :=
    match opt with
    | RelayMessageOption inner => Message_nested_ind inner
    | OtherOption _ => I
    end in
  let fix each (options : list Option) : Forall relayed_P options :=
    match options with
    | [] => Forall_nil relayed_P
    | opt :: rest => Forall_cons opt (relayed opt) (each rest)
    end in
  match m with
  | UnknownMessage message_type message_data => P_Unknown message_type message_data
  | ClientServerMessage variant transaction_id options =>
      P_ClientServer variant transaction_id options (each options)
  | RelayServerMessage variant message_type hop_count link_address peer_address options =>
      P_RelayServer variant message_type hop_count link_address peer_address options
        (each options)
  end.

End Message_nested_ind.

(** [element_class()] in [parse]: the constructor called without
    arguments. [UnknownMessage.__init__] has no default for
    [message_type]; the other constructors default every parameter. *)
Definition new (element_class : MessageClass) : outcome Message :=
  match element_class with
  | class_UnknownMessage =>
      Raise (TypeError "__init__() missing 1 required positional argument: 'message_type'")
  | class_ClientServerMessage variant =>
      Ok (ClientServerMessage variant (Bytes [x00; x00; x00]) [])
  | class_RelayServerMessage variant =>
      Ok (RelayServerMessage variant (RelayServer_message_type variant) 0 None None [])
  end.

(** [self.get_element_class(option)] *)
Definition get_class (self : Message) (opt : Option) : option OptionClass :=
  get_element_class isinstance (_may_contain (type_of self)) opt.

(** [for option in self.options: option.validate()] *)
Fixpoint validate_options (options : list Option) : outcome unit :=
  match options with
  | [] => Ok tt
  | opt :: rest => Option_validate opt ;;; validate_options rest
  end.

(** The [iaids] dictionary of [ClientServerMessage.validate]:
    [setdefault] makes a missing key an empty list. *)
Definition iaids_dict : Type := option OptionClass -> list IAID.

Definition option_class_eqb (a b : option OptionClass) : bool :=
  match a, b with
  | Some x, Some y => if OptionClass_eq_dec x y then true else false
  | None, None => true
  | _, _ => false
  end.

(** [iaid in existing] compares with [==]. *)
Definition IAID_eqb (a b : IAID) : bool :=
  if IAID_eq_dec a b then true else false.

Definition iaids_append (iaids : iaids_dict) (option_class : option OptionClass)
    (iaid : IAID) : iaids_dict :=
  fun k => if option_class_eqb option_class k then iaids k ++ [iaid] else iaids k.

(** The uniqueness loop: [if iaid:] skips an option without [iaid]
    and an option whose [iaid] is falsy. *)
Fixpoint check_iaids (self : Message) (options : list Option) (iaids : iaids_dict)
  : outcome unit :=
  match options with
  | [] => Ok tt
  | opt :: rest =>
      match iaid opt with
      | Some iaid =>
          if negb (IAID_truth iaid) then check_iaids self rest iaids
          else
            let option_class := get_class self opt in
            let existing := iaids option_class in
            if existsb (IAID_eqb iaid) existing then
              match option_class with
              | Some klass =>
                  Raise (ValueError ("IAID " ++ IAID_str iaid ++ " of " ++ class_name klass
                                       ++ " is not unique")%string)
              | None =>
                  Raise (AttributeError "'NoneType' object has no attribute '__name__'")
              end
            else check_iaids self rest (iaids_append iaids option_class iaid)
      | None => check_iaids self rest iaids
      end
  end.

(** The address checks of [RelayServerMessage.validate]: an
    [IPv6Address] that is not multicast. *)
Definition check_address (what : string) (address : option IPv6Address) : outcome unit :=
  match address with
  | Some a =>
      if is_multicast a then
        Raise (ValueError (what ++ " must be a non-multicast IPv6 address")%string)
      else Ok tt
  | None => Raise (ValueError (what ++ " must be a non-multicast IPv6 address")%string)
  end.

(** [self.validate_contains(self.options)] *)
Definition self_validate_contains (self : Message) : outcome unit :=
  validate_contains OptionClass_eq_dec isinstance class_name type_name
    (MessageClass_name (type_of self)) (_may_contain (type_of self)) (options_of self).

(** [validate] of [UnknownMessage], [ClientServerMessage] and
    [RelayServerMessage]. *)
Definition validate (self : Message) : outcome unit :=
  match self with
  | UnknownMessage message_type message_data =>
      if negb ((0 <=? message_type) && (message_type <? 2 ^ 8)) then
        Raise (ValueError "Message type must be an unsigned 8-bit integer")
      else if negb (is_bytes message_data) then
        Raise (ValueError "Message data must consist of bytes")
      else Ok tt
  | ClientServerMessage variant transaction_id options =>
      if negb (is_bytes transaction_id) || negb (len (data_of transaction_id) =? 3) then
        Raise (ValueError "Transaction-id must be 3 bytes")
      else
        self_validate_contains self ;;;
        validate_options options ;;;
        check_iaids self options (fun _ => [])
  | RelayServerMessage variant message_type hop_count link_address peer_address options =>
      if negb ((0 <=? hop_count) && (hop_count <? 2 ^ 8)) then
        Raise (ValueError "Hop-count must be an unsigned 8 bit integer")
      else
        check_address "Link-address" link_address ;;;
        check_address "Peer-address" peer_address ;;;
        self_validate_contains self ;;;
        validate_options options
  end.

(** The option loop of both [load_from]s:
    [while max_length > my_offset: ... self.options.append(option)].
    The state is the options list of [self] and [my_offset]; one unit of
    fuel is spent per pass. *)
Fixpoint parse_options (fuel : nat) (buffer : byteslike) (offset max_length : Z)
    (options : list Option) (my_offset : Z) : outcome (list Option * Z) :=
  if max_length >? my_offset then
    match fuel with
    | O => NoFuel
    | S fuel' =>
        '(used_buffer, opt) <- Option_parse buffer (offset + my_offset) ;;
        parse_options fuel' buffer offset max_length
          (options ++ [opt]) (my_offset + used_buffer)
    end
  else Ok (options, my_offset).

(** [UnknownMessage.load_from]: [length - my_offset] needs an [int]. *)
Definition UnknownMessage_load_from (buffer : byteslike) (offset : Z) (length : option Z)
  : outcome (Z * Message) :=
  let my_offset := 0 in
  message_type <- getitem (data_of buffer) (offset + my_offset) ;;
  let my_offset := my_offset + 1 in
  message_data_len <-
    match length with
    | Some length => Ok (length - my_offset)
    | None => Raise (TypeError "unsupported operand type(s) for -: 'NoneType' and 'int'")
    end ;;
  let message_data := sliced buffer (offset + my_offset)
                        (offset + my_offset + message_data_len) in
  let my_offset := my_offset + message_data_len in
  let self := UnknownMessage message_type message_data in
  validate self ;;;
  Ok (my_offset, self).

(** [ClientServerMessage.load_from] *)
Definition ClientServerMessage_load_from (fuel : nat) (variant : ClientServerVariant)
    (options : list Option) (buffer : byteslike) (offset : Z) (length : option Z)
  : outcome (Z * Message) :=
  let my_offset := 0 in
  message_type <- getitem (data_of buffer) (offset + my_offset) ;;
  let my_offset := my_offset + 1 in
  if negb (message_type =? ClientServer_message_type variant) then
    Raise (ValueError ("The provided buffer does not contain " ++ ClientServer_name variant
                         ++ " data")%string)
  else
    let transaction_id := sliced buffer (offset + my_offset) (offset + my_offset + 3) in
    let my_offset := my_offset + 3 in
    let max_length := or_else length (len (data_of buffer) - offset) in
    '(options, my_offset) <- parse_options fuel buffer offset max_length options my_offset ;;
    let self := ClientServerMessage variant transaction_id options in
    validate self ;;;
    Ok (my_offset, self).

(** [RelayServerMessage.load_from]: the tag read from the buffer is
    stored, not compared. *)
Definition RelayServerMessage_load_from (fuel : nat) (variant : RelayServerVariant)
    (options : list Option) (buffer : byteslike) (offset : Z) (length : option Z)
  : outcome (Z * Message) :=
  let my_offset := 0 in
  message_type <- getitem (data_of buffer) (offset + my_offset) ;;
  let my_offset := my_offset + 1 in
  hop_count <- getitem (data_of buffer) (offset + my_offset) ;;
  let my_offset := my_offset + 1 in
  link_address <- IPv6Address_new (sliced buffer (offset + my_offset)
                                     (offset + my_offset + 16)) ;;
  let my_offset := my_offset + 16 in
  peer_address <- IPv6Address_new (sliced buffer (offset + my_offset)
                                     (offset + my_offset + 16)) ;;
  let my_offset := my_offset + 16 in
  let max_length := or_else length (len (data_of buffer) - offset) in
  '(options, my_offset) <- parse_options fuel buffer offset max_length options my_offset ;;
  let self := RelayServerMessage variant message_type hop_count
                (Some link_address) (Some peer_address) options in
  validate self ;;;
  Ok (my_offset, self).

(** [self.load_from(buffer, offset, length)]: the consumed length and
    the instance as the call leaves it. *)
Definition load_from (fuel : nat) (self : Message) (buffer : byteslike) (offset : Z)
    (length : option Z) : outcome (Z * Message) :=
  match self with
  | UnknownMessage _ _ => UnknownMessage_load_from buffer offset length
  | ClientServerMessage variant _ options =>
      ClientServerMessage_load_from fuel variant options buffer offset length
  | RelayServerMessage variant _ _ _ _ options =>
      RelayServerMessage_load_from fuel variant options buffer offset length
  end.

(** [parse]: [Message] derives from [ProtocolElement], which is not among
    the sources; this is [StructuredElement.parse] of [parsing.py], the
    base class the sources do hold, and what the specification describes:
    determine the class, construct a default instance, load it. *)
Definition parse (fuel : nat) (buffer : byteslike) (offset : Z) (length : option Z)
  : outcome (Z * Message) :=
  element_class <- determine_class buffer offset ;;
  element <- new element_class ;;
  '(length, element) <- load_from fuel element buffer offset length ;;
  Ok (length, element).

(** [for option in self.options: buffer.extend(option.save())], on
    the bytes the [bytearray] holds. *)
Fixpoint extend_options (buffer : bytes) (options : list Option) : outcome bytes :=
  match options with
  | [] => Ok buffer
  | opt :: rest =>
      saved <- Option_save opt ;;
      extend_options (buffer ++ saved) rest
  end.

(** [save] of the three message shapes: each fills a [bytearray] and
    returns it. *)
Definition save (self : Message) : outcome byteslike :=
  validate self ;;;
  match self with
  | UnknownMessage message_type message_data =>
      tag <- byte_of_int message_type ;;
      Ok (Bytearray (([] ++ [tag]) ++ data_of message_data))
  | ClientServerMessage variant transaction_id options =>
      tag <- byte_of_int (ClientServer_message_type variant) ;;
      buffer <- extend_options (([] ++ [tag]) ++ data_of transaction_id) options ;;
      Ok (Bytearray buffer)
  | RelayServerMessage variant message_type hop_count link_address peer_address options =>
      tag <- byte_of_int message_type ;;
      hops <- byte_of_int hop_count ;;
      link <- match link_address with
              | Some a => Ok (packed a)
              | None => Raise (AttributeError "'NoneType' object has no attribute 'packed'")
              end ;;
      peer <- match peer_address with
              | Some a => Ok (packed a)
              | None => Raise (AttributeError "'NoneType' object has no attribute 'packed'")
              end ;;
      buffer <- extend_options (((([] ++ [tag]) ++ [hops]) ++ link) ++ peer) options ;;
      Ok (Bytearray buffer)
  end.

(** The property [RelayServerMessage.relayed_message]. *)
Fixpoint first_relayed_message (options : list Option) : option Message :=
  match options with
  | [] => None
  | RelayMessageOption relayed_message :: _ => Some relayed_message
  | OtherOption _ :: rest => first_relayed_message rest
  end.

Definition relayed_message (self : Message) : option Message :=
  first_relayed_message (options_of self).

(** The loop of [RelayForwardMessage.wrap_response] over
    [self.options]; [my_options] is [my_response.options] so far and
    [wrap] is [wrap_response] on an embedded relay-forward message. *)
Fixpoint wrap_options (wrap : Message -> outcome Message) (response : Message)
    (options my_options : list Option) : outcome (list Option) :=
  match options with
  | [] => Ok my_options
  | opt :: rest =>
      if echo_to_relay opt then
        wrap_options wrap response rest (my_options ++ [opt])
      else
        match opt with
        | RelayMessageOption relayed_message =>
            match relayed_message with
            | RelayServerMessage RelayForwardMessage _ _ _ _ _ =>
                wrapped <- wrap relayed_message ;;
                wrap_options wrap response rest
                  (my_options ++ [RelayMessageOption wrapped])
            | ClientServerMessage _ _ _ =>
                wrap_options wrap response rest
                  (my_options ++ [RelayMessageOption response])
            | _ =>
                Raise (ValueError ("RelayForwardMessages can only contain "
                                     ++ "other RelayForwardMessages and ClientServerMessages")%string)
            end
        | OtherOption _ => wrap_options wrap response rest my_options
        end
  end.

(** [RelayForwardMessage.wrap_response]; no other class has the
    method. *)
Fixpoint wrap_response (self : Message) (response : Message) {struct self}
  : outcome Message :=
  match self with
  | RelayServerMessage RelayForwardMessage _ hop_count link_address peer_address options =>
      my_options <- wrap_options (fun inner => wrap_response inner response)
                      response options [] ;;
      Ok (RelayServerMessage RelayReplyMessage MSG_RELAY_REPL
            hop_count link_address peer_address my_options)
  | _ => Raise (AttributeError "object has no attribute 'wrap_response'")
  end.

(** *** The vocabulary of the specification

    A relay chain: a relay-forward message each of whose relay message
    options, unless it asks to be echoed, wraps a client-server message
    or a further relay chain. *)
Fixpoint relay_chain (m : Message) : bool :=
  match m with
  | RelayServerMessage RelayForwardMessage _ _ _ _ options =>
      forallb
        (fun opt =>
           echo_to_relay opt ||
           match opt with
           | RelayMessageOption inner => is_ClientServerMessage inner || relay_chain inner
           | OtherOption _ => true
           end)
        options
  | _ => false
  end.

(** The nesting depth of a message: the number of relay messages met
    by following [relayed_message] from it. *)
Fixpoint relayed_depth (depth : Message -> nat) (options : list Option) : nat :=
  match options with
  | [] => O
  | RelayMessageOption inner :: _ => depth inner
  | OtherOption _ :: rest => relayed_depth depth rest
  end.

Fixpoint nesting_depth (m : Message) : nat :=
  match m with
  | RelayServerMessage _ _ _ _ _ options => S (relayed_depth nesting_depth options)
  | _ => O
  end.

(** What the specification says [wrap_response] makes of the options
    of a relay-forward message, option by option. *)
Inductive wrapped_as_specified (response : Message)
  : list Option -> list Option -> Prop :=
| wrapped_nil :
    wrapped_as_specified response [] []
| wrapped_echo opt rest rest' :
    echo_to_relay opt = true ->
    wrapped_as_specified response rest rest' ->
    wrapped_as_specified response (opt :: rest) (opt :: rest')
| wrapped_relay inner wrapped rest rest' :
    echo_to_relay (RelayMessageOption inner) = false ->
    is_RelayForwardMessage inner = true ->
    wrap_response inner response = Ok wrapped ->
    wrapped_as_specified response rest rest' ->
    wrapped_as_specified response
      (RelayMessageOption inner :: rest) (RelayMessageOption wrapped :: rest')
| wrapped_client inner rest rest' :
    echo_to_relay (RelayMessageOption inner) = false ->
    is_ClientServerMessage inner = true ->
    wrapped_as_specified response rest rest' ->
    wrapped_as_specified response
      (RelayMessageOption inner :: rest) (RelayMessageOption response :: rest')
| wrapped_dropped o rest rest' :
    echo_to_relay (OtherOption o) = false ->
    wrapped_as_specified response rest rest' ->
    wrapped_as_specified response (OtherOption o :: rest) rest'.

(** The (classified kind, iaid) pairs the uniqueness loop of
    [ClientServerMessage.validate] records: an option without [iaid], or
    with a falsy one, is passed over. *)
Definition recorded_iaid (self : Message) (opt : Option)
  : list (option OptionClass * IAID) :=
  match iaid opt with
  | Some iaid => if negb (IAID_truth iaid) then [] else [(get_class self opt, iaid)]
  | None => []
  end.

Definition recorded_iaids (self : Message) (options : list Option)
  : list (option OptionClass * IAID) :=
  flat_map (recorded_iaid self) options.



(** An instance of one of the thirteen registered classes that carries
    the [message_type] of its class. *)
Definition registered_instance (x : Message) : bool :=
  match x with
  | UnknownMessage _ _ => false
  | ClientServerMessage _ _ _ => true
  | RelayServerMessage variant message_type _ _ _ _ =>
      message_type =? RelayServer_message_type variant
  end.

(** The length of the fixed header the option loop starts after. *)
Definition header_length (self : Message) : Z :=
  match self with
  | UnknownMessage _ _ => 1
  | ClientServerMessage _ _ _ => 4
  | RelayServerMessage _ _ _ _ _ _ => 34
  end.

(** The contract an option keeps with the option catalogue: what it
    saves is never empty, and [Option.parse] reads it back out of a
    [bytes] buffer, wherever it lies there, reporting exactly its
    length. *)
Definition option_codec (opt : Option) : Prop :=
  forall (saved pre rest : bytes),
    Option_save opt = Ok saved ->
    saved <> [] /\
    Option_parse (Bytes (pre ++ saved ++ rest)) (len pre) = Ok (len saved, opt).

End Messages.

End Messages.


(** ** A small option catalogue

    [dhcpkit.ipv6.options] is not among the sources; the examples below
    run the messages over this catalogue: an identity association option
    carrying an [iaid], an interface-id option that asks to be echoed to
    the relay, and any other option kept as raw data. An option is encoded
    as one byte of type, one byte of length and the data. The relay message
    option belongs to the message model; this catalogue does not encode
    it. *)

Module Sample.

Import Parsing Messages.

Definition OPTION_IA_NA : Z := 3.
Definition OPTION_INTERFACE_ID : Z := 18.

Inductive Opt : Type :=
| IANAOption (iaid : Z)
| InterfaceIdOption (interface_id : bytes)
| UnknownOption (option_type : Z) (option_data : bytes).

Inductive Kind : Type :=
| class_Option
| class_IANAOption
| class_InterfaceIdOption
| class_RelayMessageOption.

Definition Kind_eq_dec (a b : Kind) : {a = b} + {a <> b}.
Proof. decide equality. Defined.

Definition Opt_isinstance (opt : Option Opt) (klass : Kind) : bool :=
  match klass, opt with
  | class_Option, _ => true
  | class_RelayMessageOption, RelayMessageOption _ => true
  | class_IANAOption, OtherOption (IANAOption _) => true
  | class_InterfaceIdOption, OtherOption (InterfaceIdOption _) => true
  | _, _ => false
  end.

Definition Kind_name (klass : Kind) : string :=
  match klass with
  | class_Option => "Option"
  | class_IANAOption => "IANAOption"
  | class_InterfaceIdOption => "InterfaceIdOption"
  | class_RelayMessageOption => "RelayMessageOption"
  end.

Definition Opt_type_name (opt : Option Opt) : string :=
  match opt with
  | RelayMessageOption _ => "RelayMessageOption"
  | OtherOption (IANAOption _) => "IANAOption"
  | OtherOption (InterfaceIdOption _) => "InterfaceIdOption"
  | OtherOption (UnknownOption _ _) => "UnknownOption"
  end.

Definition Opt_may_contain (klass : MessageClass) : may_contain_items Kind :=
  [ (class_RelayMessageOption, (0, 1));
    (class_IANAOption, (0, infinite));
    (class_Option, (0, infinite)) ].

Definition Opt_iaid (opt : Option Opt) : option Z :=
  match opt with
  | OtherOption (IANAOption iaid) => Some iaid
  | _ => None
  end.

Definition Opt_echo_to_relay (opt : Option Opt) : bool :=
  match opt with
  | OtherOption (InterfaceIdOption _) => true
  | _ => false
  end.

(** The type and the data an option is encoded with. *)
Definition encode (o : Opt) : outcome (Z * bytes) :=
  match o with
  | IANAOption iaid => b <- byte_of_int iaid ;; Ok (OPTION_IA_NA, [b])
  | InterfaceIdOption interface_id => Ok (OPTION_INTERFACE_ID, interface_id)
  | UnknownOption option_type option_data =>
      if (option_type =? OPTION_IA_NA) || (option_type =? OPTION_INTERFACE_ID) then
        Raise (ValueError "Option type belongs to a known option")
      else Ok (option_type, option_data)
  end.

Definition decode (option_type : Z) (option_data : bytes) : outcome Opt :=
  if option_type =? OPTION_IA_NA then
    match option_data with
    | [b] => Ok (IANAOption (int_of_byte b))
    | _ => Raise (ValueError "IA_NA option must hold one byte")
    end
  else if option_type =? OPTION_INTERFACE_ID then Ok (InterfaceIdOption option_data)
  else Ok (UnknownOption option_type option_data).

Definition Opt_save (opt : Option Opt) : outcome bytes :=
  match opt with
  | RelayMessageOption _ => Raise (ValueError "Relay message option is not encoded here")
  | OtherOption o =>
      '(option_type, option_data) <- encode o ;;
      tag <- byte_of_int option_type ;;
      option_len <- byte_of_int (len option_data) ;;
      Ok ([tag; option_len] ++ option_data)
  end.

Definition Opt_validate (opt : Option Opt) : outcome unit :=
  Opt_save opt ;;; Ok tt.

Definition Opt_parse (buffer : byteslike) (offset : Z) : outcome (Z * Option Opt) :=
  option_type <- getitem (data_of buffer) offset ;;
  option_len <- getitem (data_of buffer) (offset + 1) ;;
  let option_data := slice (data_of buffer) (offset + 2) (offset + 2 + option_len) in
  if negb (len option_data =? option_len) then
    Raise (ValueError "Option is longer than the buffer")
  else
    o <- decode option_type option_data ;;
    Ok (2 + option_len, OtherOption o).

#[export] Instance catalogue : OptionCatalogue Opt := {|
  OptionClass := Kind;
  OptionClass_eq_dec := Kind_eq_dec;
  isinstance := Opt_isinstance;
  class_name := Kind_name;
  type_name := Opt_type_name;
  _may_contain := Opt_may_contain;
  Option_parse := Opt_parse;
  Option_save := Opt_save;
  Option_validate := Opt_validate;
  IAID := Z;
  IAID_eq_dec := Z.eq_dec;
  IAID_truth := fun iaid => negb (iaid =? 0);
  IAID_str := str;
  iaid := Opt_iaid;
  echo_to_relay := Opt_echo_to_relay
|}.

(** A message over this catalogue. *)
Definition Msg : Type := Message Opt.

(** The address [::] and the address [::1]. *)
Definition unspecified : IPv6Address :=
  exist _ (repeat x00 16) eq_refl.

Definition loopback : IPv6Address :=
  exist _ (repeat x00 15 ++ [x01]) eq_refl.

End Sample.


(** ** The other methods of the messages

    [get_options_of_type] and [get_option_of_type] of
    [ClientServerMessage] and of [RelayServerMessage], and the [__eq__]
    that [StructuredElement] gives every message. *)

Module Methods.

Import Parsing Messages.

(** [==] on two lists, element by element. *)
Fixpoint list_eqb {A : Type} (eqb : A -> A -> bool) (l l' : list A) : bool :=
  match l, l' with
  | [], [] => true
  | a :: rest, a' :: rest' => eqb a a' && list_eqb eqb rest rest'
  | _, _ => false
  end.

Definition bytes_eqb (a b : bytes) : bool := list_eqb Byte.eqb a b.

(** [==] on two attributes that hold a [bytes] object or a
    [bytearray]: the bytes they hold are compared, whatever the two types
    are. *)
Definition byteslike_eqb (a b : byteslike) : bool := bytes_eqb (data_of a) (data_of b).

(** [==] on two attributes that hold an [IPv6Address] or [None]. *)
Definition address_eqb (a b : option IPv6Address) : bool :=
  match a, b with
  | Some x, Some y => bytes_eqb (packed x) (packed y)
  | None, None => true
  | _, _ => false
  end.

(** [type(self) is type(other)] *)
Definition MessageClass_eq_dec (a b : MessageClass) : {a = b} + {a <> b}.
Proof. repeat decide equality. Defined.

Definition same_type (a b : MessageClass) : bool :=
  if MessageClass_eq_dec a b then true else false.

Section Methods.

Context {Opt : Type} {catalogue : OptionCatalogue Opt}.

Local Abbreviation Message := (Message Opt).
Local Abbreviation Option := (Option Opt).

(** [get_options_of_type]:
    [[option for option in self.options if isinstance(option, klass)]].
    [UnknownMessage] has no such method. *)
Definition get_options_of_type (self : Message) (klass : OptionClass)
  : outcome (list Option) :=
  match self with
  | UnknownMessage _ _ =>
      Raise (AttributeError "'UnknownMessage' object has no attribute 'get_options_of_type'")
  | _ => Ok (filter (fun opt => isinstance opt klass) (options_of self))
  end.

(** The loop of [get_option_of_type]: the first option that is an
    instance of [klass]; falling off the loop returns [None]. *)
Fixpoint first_of_type (options : list Option) (klass : OptionClass) : option Option :=
  match options with
  | [] => None
  | opt :: rest => if isinstance opt klass then Some opt else first_of_type rest klass
  end.

Definition get_option_of_type (self : Message) (klass : OptionClass)
  : outcome (option Option) :=
  match self with
  | UnknownMessage _ _ =>
      Raise (AttributeError "'UnknownMessage' object has no attribute 'get_option_of_type'")
  | _ => Ok (first_of_type (options_of self) klass)
  end.

(** The message at the bottom of a relay message: follow
    [relayed_message] for as long as there is one. *)
Fixpoint innermost_of (innermost : Message -> Message) (options : list Option)
    (self : Message) : Message :=
  match options with
  | [] => self
  | RelayMessageOption inner :: _ => innermost inner
  | OtherOption _ :: rest => innermost_of innermost rest self
  end.

Fixpoint innermost (m : Message) : Message :=
  match m with
  | RelayServerMessage _ _ _ _ _ options => innermost_of innermost options m
  | _ => m
  end.

Section Equality.

(** [==] between two options other than relay message options. *)
Variable Opt_eqb : Opt -> Opt -> bool.

(** Modelled from the spec: the option module is not among the
    sources. [self.options != other.options], negated: the lists have the
    same length and the options are pairwise [==]. A relay message option
    is a structured element that exposes [relayed_message], the one
    parameter [wrap_response] constructs it from, so two of them are
    [==] when their relayed messages are. *)
Fixpoint options_eqb (eqb : Message -> Message -> bool) (l l' : list Option) : bool :=
  match l, l' with
  | [], [] => true
  | opt :: rest, opt' :: rest' =>
      match opt, opt' with
      | RelayMessageOption m, RelayMessageOption m' => eqb m m'
      | OtherOption o, OtherOption o' => Opt_eqb o o'
      | _, _ => false
      end && options_eqb eqb rest rest'
  | _, _ => false
  end.

(** [StructuredElement.__eq__] as [==] sees it: [False] for two
    different classes ([NotImplemented] on both sides), and otherwise the
    comparison of the parameters of [__init__], in their order:
    [message_type] and [message_data] for [UnknownMessage];
    [transaction_id] and [options] for a client-server message;
    [hop_count], [link_address], [peer_address] and [options] for a relay
    message, whose [message_type] is no parameter. *)
Fixpoint Message_eqb (self other : Message) {struct self} : bool :=
  match self, other with
  | UnknownMessage message_type message_data, UnknownMessage message_type' message_data' =>
      (message_type =? message_type') && byteslike_eqb message_data message_data'
  | ClientServerMessage variant transaction_id options,
    ClientServerMessage variant' transaction_id' options' =>
      same_type (class_ClientServerMessage variant) (class_ClientServerMessage variant')
      && byteslike_eqb transaction_id transaction_id'
      && options_eqb (fun m m' => Message_eqb m m') options options'
  | RelayServerMessage variant _ hop_count link_address peer_address options,
    RelayServerMessage variant' _ hop_count' link_address' peer_address' options' =>
      same_type (class_RelayServerMessage variant) (class_RelayServerMessage variant')
      && (hop_count =? hop_count')
      && address_eqb link_address link_address'
      && address_eqb peer_address peer_address'
      && options_eqb (fun m m' => Message_eqb m m') options options'
  | _, _ => false
  end.

End Equality.

(** A message with the [message_type] of every relay message in it set
    to 0, and with the bytes of [message_data] and [transaction_id] held
    in a [bytes] object: what [__eq__] can see of a message. *)
Fixpoint without_relay_tags (m : Message) : Message :=
  let inside (opt : Option) : Option :=
    match opt with
    | RelayMessageOption inner => RelayMessageOption (without_relay_tags inner)
    | OtherOption o => OtherOption o
    end in
  match m with
  | UnknownMessage message_type message_data =>
      UnknownMessage message_type (Bytes (data_of message_data))
  | ClientServerMessage variant transaction_id options =>
      ClientServerMessage variant (Bytes (data_of transaction_id)) (map inside options)
  | RelayServerMessage variant _ hop_count link_address peer_address options =>
      RelayServerMessage variant 0 hop_count link_address peer_address (map inside options)
  end.

End Methods.

End Methods.

(** ** Sample messages

    Messages over the sample catalogue, with the bytes they save. *)

Module SampleMethods.

Import Parsing Messages Sample Methods.

(** [==] between two options of the sample catalogue: the same class
    and equal constructor parameters. *)
Definition Opt_eqb (a b : Opt) : bool :=
  match a, b with
  | IANAOption iaid, IANAOption iaid' => iaid =? iaid'
  | InterfaceIdOption interface_id, InterfaceIdOption interface_id' =>
      bytes_eqb interface_id interface_id'
  | UnknownOption option_type option_data, UnknownOption option_type' option_data' =>
      (option_type =? option_type') && bytes_eqb option_data option_data'
  | _, _ => false
  end.

(** A catalogue whose parser accepts the empty encoding of an option:
    it reports no byte used. *)
Definition parse_nothing (buffer : byteslike) (offset : Z) : outcome (Z * Option Opt) :=
  Ok (0, OtherOption (UnknownOption 0 [])).

Definition stalled : OptionCatalogue Opt := {|
  OptionClass := Kind;
  OptionClass_eq_dec := Kind_eq_dec;
  isinstance := Opt_isinstance;
  class_name := Kind_name;
  type_name := Opt_type_name;
  _may_contain := Opt_may_contain;
  Option_parse := parse_nothing;
  Option_save := Opt_save;
  Option_validate := Opt_validate;
  IAID := Z;
  IAID_eq_dec := Z.eq_dec;
  IAID_truth := fun iaid => negb (iaid =? 0);
  IAID_str := str;
  iaid := Opt_iaid;
  echo_to_relay := Opt_echo_to_relay
|}.

Definition solicit : Msg :=
  ClientServerMessage SolicitMessage (Bytes [x0a; x0b; x0c])
    [OtherOption (IANAOption 5); OtherOption (InterfaceIdOption [xaa; xbb])].

Definition solicit_saved : bytes :=
  [x01; x0a; x0b; x0c; x03; x01; x05; x12; x02; xaa; xbb].

Definition relay_forward : Msg :=
  RelayServerMessage RelayForwardMessage MSG_RELAY_FORW 1 (Some loopback) (Some unspecified)
    [OtherOption (InterfaceIdOption [x01])].

Definition relay_forward_saved : bytes :=
  [x0c; x01] ++ packed loopback ++ packed unspecified ++ [x12; x01; x01].

Definition reply : Msg := ClientServerMessage ReplyMessage (Bytes [x00; x00; x01]) [].

(** A relay-forward message that echoes an interface id, carries one
    more option and wraps a relay-forward message around a Solicit
    message; and what [wrap_response] makes of it for [reply]. *)
Definition relay_chain_of_two : Msg :=
  RelayServerMessage RelayForwardMessage MSG_RELAY_FORW 1 (Some loopback) (Some unspecified)
    [ OtherOption (InterfaceIdOption [x01]);
      OtherOption (UnknownOption 99 []);
      RelayMessageOption
        (RelayServerMessage RelayForwardMessage MSG_RELAY_FORW 0
           (Some unspecified) (Some unspecified)
           [ RelayMessageOption
               (ClientServerMessage SolicitMessage (Bytes [x00; x00; x01]) []) ]) ].

Definition relay_reply_of_two : Msg :=
  RelayServerMessage RelayReplyMessage MSG_RELAY_REPL 1 (Some loopback) (Some unspecified)
    [ OtherOption (InterfaceIdOption [x01]);
      RelayMessageOption
        (RelayServerMessage RelayReplyMessage MSG_RELAY_REPL 0
           (Some unspecified) (Some unspecified)
           [ RelayMessageOption reply ]) ].

End SampleMethods.


(** * Properties *)

(** ** Indexing and slicing *)

Module PyFacts.

Lemma bind_Ok {A B : Type} (m : outcome A) (k : A -> outcome B) (b : B) :
  bind m k = Ok b -> exists a, m = Ok a /\ k a = Ok b.
Proof.
  destruct m as [a | e |]; simpl; intros H; [eauto | discriminate | discriminate].
Qed.

Lemma bind_raises {A B : Type} (m : outcome A) (k : A -> outcome B) :
  raises m -> raises (bind m k).
Proof. intros [e ->]. exists e. reflexivity. Qed.

(** Takes a successful sequence apart, one step at a time. *)
Tactic Notation "bind_inv" hyp(H) "as" ident(a) ident(E) :=
  match type of H with
  | bind ?m ?k = Ok _ =>
      apply bind_Ok in H; destruct H as (a & E & H); cbv beta in H
  end.

Lemma len_nonneg {A : Type} (l : list A) : 0 <= len l.
Proof. unfold len. lia. Qed.

Lemma len_app {A : Type} (l l' : list A) : len (l ++ l') = len l + len l'.
Proof. unfold len. rewrite length_app. lia. Qed.

Lemma len_cons {A : Type} (a : A) (l : list A) : len (a :: l) = 1 + len l.
Proof. unfold len. simpl List.length. lia. Qed.

Lemma len_nil {A : Type} : len (@nil A) = 0.
Proof. reflexivity. Qed.

Lemma len_zero_nil {A : Type} (l : list A) : len l = 0 -> l = [].
Proof. destruct l; [reflexivity | rewrite len_cons; pose proof (len_nonneg l); lia]. Qed.

Lemma int_of_byte_range (b : byte) : 0 <= int_of_byte b < 256.
Proof.
  unfold int_of_byte. pose proof (Byte.to_N_bounded b). lia.
Qed.

Lemma byte_of_int_of_byte (b : byte) : byte_of_int (int_of_byte b) = Ok b.
Proof.
  unfold byte_of_int. pose proof (int_of_byte_range b) as R.
  replace (0 <=? int_of_byte b) with true by (symmetry; apply Z.leb_le; lia).
  replace (int_of_byte b <? 256) with true by (symmetry; apply Z.ltb_lt; lia).
  simpl. unfold int_of_byte. rewrite N2Z.id, Byte.of_to_N. reflexivity.
Qed.

Lemma int_of_byte_of_int (i : Z) (b : byte) : byte_of_int i = Ok b -> int_of_byte b = i.
Proof.
  unfold byte_of_int. destruct ((0 <=? i) && (i <? 256)) eqn:R; [| discriminate].
  apply andb_prop in R. destruct R as [R0 _]. apply Z.leb_le in R0.
  destruct (Byte.of_N (Z.to_N i)) as [b' |] eqn:E; [| discriminate].
  intros H. injection H as ->. apply Byte.to_of_N in E.
  unfold int_of_byte. rewrite E. lia.
Qed.

Lemma byte_of_int_range (i : Z) (b : byte) : byte_of_int i = Ok b -> 0 <= i < 256.
Proof.
  intros H. apply int_of_byte_of_int in H. subst i. apply int_of_byte_range.
Qed.

(** Reading past a prefix of known length. *)
Lemma getitem_app (pre l : bytes) (i : Z) :
  0 <= i -> getitem (pre ++ l) (len pre + i) = getitem l i.
Proof.
  intros Hi. unfold getitem. pose proof (len_nonneg pre) as Hp.
  replace (len pre + i <? 0) with false by (symmetry; apply Z.ltb_ge; lia).
  replace (i <? 0) with false by (symmetry; apply Z.ltb_ge; lia).
  rewrite len_app.
  replace (0 <=? len pre + i) with true by (symmetry; apply Z.leb_le; lia).
  replace (0 <=? i) with true by (symmetry; apply Z.leb_le; lia).
  replace (len pre + i <? len pre + len l) with (i <? len l)
    by (destruct (Z.ltb_spec i (len l)); symmetry;
        [apply Z.ltb_lt | apply Z.ltb_ge]; lia).
  rewrite nth_error_app2 by (unfold len; lia).
  replace (Z.to_nat (len pre + i) - List.length pre)%nat with (Z.to_nat i)
    by (unfold len; lia).
  reflexivity.
Qed.

Lemma getitem_app_0 (pre l : bytes) : getitem (pre ++ l) (len pre) = getitem l 0.
Proof.
  rewrite <- (getitem_app pre l 0) by lia. rewrite Z.add_0_r. reflexivity.
Qed.

Lemma getitem_head (b : byte) (l : bytes) : getitem (b :: l) 0 = Ok (int_of_byte b).
Proof.
  unfold getitem. rewrite len_cons. pose proof (len_nonneg l).
  cbv zeta. change (0 <? 0) with false. cbv iota. change (0 <=? 0) with true.
  replace (0 <? 1 + len l) with true by (symmetry; apply Z.ltb_lt; lia).
  reflexivity.
Qed.

Lemma getitem_tail (b : byte) (l : bytes) (i : Z) :
  0 <= i -> getitem (b :: l) (1 + i) = getitem l i.
Proof.
  intros Hi. change (b :: l) with ([b] ++ l). change 1 with (len [b]).
  apply getitem_app. exact Hi.
Qed.

Lemma slice_bound_app (n m i : Z) :
  0 <= n -> 0 <= i -> slice_bound (n + m) (n + i) = n + slice_bound m i.
Proof.
  intros Hn Hi. unfold slice_bound.
  replace (n + i <? 0) with false by (symmetry; apply Z.ltb_ge; lia).
  replace (i <? 0) with false by (symmetry; apply Z.ltb_ge; lia).
  lia.
Qed.

Lemma slice_bound_nonneg (m i : Z) : 0 <= m -> 0 <= slice_bound m i.
Proof.
  intros Hm. unfold slice_bound. destruct (i <? 0) eqn:E; [lia |].
  apply Z.ltb_ge in E. lia.
Qed.

(** Slicing past a prefix of known length. *)
Lemma slice_app {A : Type} (pre l : list A) (i j : Z) :
  0 <= i -> 0 <= j -> slice (pre ++ l) (len pre + i) (len pre + j) = slice l i j.
Proof.
  intros Hi Hj. unfold slice. rewrite len_app.
  pose proof (len_nonneg pre) as Hp. pose proof (len_nonneg l) as Hl.
  rewrite !slice_bound_app by assumption.
  pose proof (slice_bound_nonneg (len l) i Hl) as Bi.
  replace (len pre + slice_bound (len l) j - (len pre + slice_bound (len l) i))
    with (slice_bound (len l) j - slice_bound (len l) i) by lia.
  f_equal. rewrite skipn_app.
  rewrite skipn_all2 by (unfold len in *; lia). simpl. f_equal.
  unfold len in *. lia.
Qed.

(** The leading [len b] items of a buffer that starts with [b]. *)
Lemma slice_prefix {A : Type} (b rest : list A) : slice (b ++ rest) 0 (len b) = b.
Proof.
  unfold slice. rewrite len_app.
  pose proof (len_nonneg b) as Hb. pose proof (len_nonneg rest) as Hr.
  unfold slice_bound.
  replace (len b <? 0) with false by (symmetry; apply Z.ltb_ge; lia).
  change (0 <? 0) with false. cbv iota.
  rewrite Z.min_l by lia. rewrite Z.min_l by lia.
  simpl. rewrite Z.sub_0_r. unfold len. rewrite Nat2Z.id.
  rewrite firstn_app, firstn_all, Nat.sub_diag. simpl. apply app_nil_r.
Qed.

Lemma slice_middle {A : Type} (pre b rest : list A) :
  slice (pre ++ b ++ rest) (len pre) (len pre + len b) = b.
Proof.
  replace (len pre) with (len pre + 0) at 1 by lia.
  rewrite slice_app by (try apply len_nonneg; lia).
  apply slice_prefix.
Qed.

End PyFacts.

(** ** Occurrence constraints *)

Module ParsingFacts.

Import Parsing PyFacts.

Section StructuredElement.

Context {Class : Type} (Class_eq_dec : forall a b : Class, {a = b} + {a <> b}).
Context {Element : Type} (isinstance : Element -> Class -> bool).
Context (class_name : Class -> string) (type_name : Element -> string).

Local Abbreviation items := (may_contain_items Class).

(** A class is returned exactly for the first entry the element is an
    instance of, when neither it nor an entry before it is capped
    below 1. *)
Lemma get_element_class_Some (table : items) (element : Element) (klass : Class) :
  get_element_class isinstance table element = Some klass <->
  exists before min_occurrence max_occurrence after,
    table = before ++ (klass, (min_occurrence, max_occurrence)) :: after /\
    Forall (passed isinstance element) before /\
    1 <= max_occurrence /\ isinstance element klass = true.
Proof.
  induction table as [| [k [mn mx]] table IH]; simpl.
  - split; [discriminate |].
    intros (before & mn & mx & after & E & _). destruct before; discriminate.
  - destruct (Z.ltb_spec mx 1) as [Hmx | Hmx].
    + split; [discriminate |].
      intros (before & mn' & mx' & after & E & Hb & Hm & Hi).
      destruct before as [| b before]; simpl in E; inversion E; subst.
      * lia.
      * inversion Hb as [| ? ? [Hp _] _]; subst. simpl in Hp. lia.
    + destruct (isinstance element k) eqn:Ei.
      * split.
        -- intros H. injection H as ->. exists [], mn, mx, table. auto.
        -- intros (before & mn' & mx' & after & E & Hb & Hm & Hi).
           destruct before as [| b before]; simpl in E; inversion E; subst.
           ++ reflexivity.
           ++ inversion Hb as [| ? ? [_ Hp] _]; subst. simpl in Hp. congruence.
      * rewrite IH. split.
        -- intros (before & mn' & mx' & after & E & Hb & Hm & Hi).
           exists ((k, (mn, mx)) :: before), mn', mx', after. subst table.
           repeat split; auto. constructor; [split; assumption | assumption].
        -- intros (before & mn' & mx' & after & E & Hb & Hm & Hi).
           destruct before as [| b before]; simpl in E; inversion E; subst.
           ++ congruence.
           ++ exists before, mn', mx', after. inversion Hb; subst. auto.
Qed.

(** An entry capped below 1 ends the search for every element, whether
    the element is an instance of its class or not. *)
Lemma get_element_class_capped (before after : items) (klass : Class)
    (min_occurrence max_occurrence : Z) (element : Element) :
  Forall (passed isinstance element) before ->
  max_occurrence < 1 ->
  get_element_class isinstance
    (before ++ (klass, (min_occurrence, max_occurrence)) :: after) element = None.
Proof.
  intros Hb Hm. induction Hb as [| [k [mn mx]] before [Hp Hi] _ IH]; simpl.
  - destruct (Z.ltb_spec max_occurrence 1); [reflexivity | lia].
  - simpl in Hp, Hi. destruct (Z.ltb_spec mx 1); [lia |]. rewrite Hi. exact IH.
Qed.

(** The counters after the first loop of [validate_contains]. *)
Lemma count_occurrence_Ok (self_name : string) (table : items)
    (elements : list Element) (counters counters' : Counter Class) :
  count_occurrence Class_eq_dec isinstance type_name self_name table elements counters
    = Ok counters' ->
  Forall (fun element => get_element_class isinstance table element <> None) elements /\
  forall klass,
    counters' klass = counters klass + occurrences Class_eq_dec isinstance table elements klass.
Proof.
  revert counters. induction elements as [| element rest IH]; simpl; intros counters H.
  - injection H as <-. split; [constructor |]. intros klass.
    unfold occurrences. simpl. rewrite len_nil. lia.
  - destruct (get_element_class isinstance table element) as [k |] eqn:E; [| discriminate].
    apply IH in H. destruct H as [Hall Hc]. split.
    + constructor; [congruence | assumption].
    + intros klass. rewrite Hc. unfold occurrences, Counter_incr. simpl.
      unfold classifies_as at 2. rewrite E.
      destruct (Class_eq_dec k klass); [rewrite len_cons |]; lia.
Qed.

Lemma count_occurrence_total (self_name : string) (table : items)
    (elements : list Element) (counters : Counter Class) :
  Forall (fun element => get_element_class isinstance table element <> None) elements ->
  exists counters',
    count_occurrence Class_eq_dec isinstance type_name self_name table elements counters
      = Ok counters'.
Proof.
  intros Hall. revert counters. induction Hall as [| element rest He _ IH]; simpl; intros.
  - eexists; reflexivity.
  - destruct (get_element_class isinstance table element); [apply IH | congruence].
Qed.

Lemma check_occurrence_Ok (self_name : string) (table : items) (counters : Counter Class) :
  check_occurrence class_name self_name table counters = Ok tt <->
  Forall (fun entry => fst (snd entry) <= counters (fst entry) <= snd (snd entry)) table.
Proof.
  induction table as [| [k [mn mx]] table IH]; simpl.
  - split; [constructor | reflexivity].
  - destruct (Z.gtb_spec (counters k) mx) as [Hgt | Hle].
    + split.
      * destruct (mx =? 1); discriminate.
      * intros H. inversion H; subst. simpl in *. lia.
    + destruct (Z.ltb_spec (counters k) mn) as [Hlt | Hge].
      * split.
        -- destruct (mn =? 1); discriminate.
        -- intros H. inversion H; subst. simpl in *. lia.
      * rewrite IH. split.
        -- intros H. constructor; [simpl; lia | assumption].
        -- intros H. inversion H; assumption.
Qed.

(** [validate_contains] passes exactly when every element classifies
    and the count of every registered class lies within its bounds. *)
Lemma validate_contains_Ok (self_name : string) (table : items) (elements : list Element) :
  validate_contains Class_eq_dec isinstance class_name type_name self_name table elements
    = Ok tt <->
  Forall (fun element => get_element_class isinstance table element <> None) elements /\
  Forall (fun entry =>
            fst (snd entry)
            <= occurrences Class_eq_dec isinstance table elements (fst entry)
            <= snd (snd entry)) table.
Proof.
  unfold validate_contains. split.
  - intros H.
    destruct (count_occurrence Class_eq_dec isinstance type_name self_name table elements
                (Counter_empty Class)) as [counters | |] eqn:E; try discriminate.
    simpl in H. apply count_occurrence_Ok in E. destruct E as [Hall Hc].
    split; [assumption |]. apply check_occurrence_Ok in H.
    eapply Forall_impl; [| exact H]. intros entry He. simpl in He.
    rewrite Hc in He. unfold Counter_empty in He. simpl in He. exact He.
  - intros [Hall Hb].
    destruct (count_occurrence_total self_name table elements (Counter_empty Class) Hall)
      as [counters E].
    rewrite E. simpl. apply check_occurrence_Ok.
    apply count_occurrence_Ok in E. destruct E as [_ Hc].
    eapply Forall_impl; [| exact Hb]. intros entry He. simpl in He.
    rewrite Hc. unfold Counter_empty. simpl. exact He.
Qed.

(** It never loops: it passes or it raises. *)
Lemma validate_contains_total (self_name : string) (table : items) (elements : list Element) :
  validate_contains Class_eq_dec isinstance class_name type_name self_name table elements
    = Ok tt \/
  raises (validate_contains Class_eq_dec isinstance class_name type_name self_name table
            elements).
Proof.
  unfold validate_contains.
  assert (C : forall counters,
             (exists c, count_occurrence Class_eq_dec isinstance type_name self_name table
                          elements counters = Ok c) \/
             raises (count_occurrence Class_eq_dec isinstance type_name self_name table
                       elements counters)).
  { induction elements as [| element rest IH]; simpl; intros counters.
    - left. eexists; reflexivity.
    - destruct (get_element_class isinstance table element); [apply IH |].
      right. eexists; reflexivity. }
  destruct (C (Counter_empty Class)) as [[c ->] | [e ->]]; simpl.
  - generalize table. intros t.
    induction t as [| [k [mn mx]] t IH]; simpl; [left; reflexivity |].
    destruct (c k >? mx); [right; destruct (mx =? 1); eexists; reflexivity |].
    destruct (c k <? mn); [right; destruct (mn =? 1); eexists; reflexivity |].
    exact IH.
  - right. eexists; reflexivity.
Qed.

End StructuredElement.

End ParsingFacts.

(** ** Messages *)

Module MessagesFacts.

Import Parsing Messages PyFacts.

Section Messages.

Context {Opt : Type} {catalogue : OptionCatalogue Opt}.

Local Abbreviation Message := (Message Opt).
Local Abbreviation Option := (Option Opt).

(** *** The option loop *)

(** The loop started on a list of options returns that list followed
    by what the loop started on an empty list returns. *)
Lemma parse_options_acc (fuel : nat) (buffer : byteslike) (offset max_length : Z)
    (existing : list Option) (my_offset : Z) :
  parse_options fuel buffer offset max_length existing my_offset =
  (r <- parse_options fuel buffer offset max_length [] my_offset ;;
   Ok (existing ++ fst r, snd r)).
Proof.
  revert existing my_offset. induction fuel as [| fuel IH]; intros existing my_offset; simpl.
  - destruct (max_length >? my_offset); simpl; [reflexivity |].
    rewrite app_nil_r. reflexivity.
  - destruct (max_length >? my_offset); simpl; [| rewrite app_nil_r; reflexivity].
    destruct (Option_parse buffer (offset + my_offset)) as [[used_buffer opt] | |]; simpl;
      try reflexivity.
    rewrite (IH (existing ++ [opt])), (IH [opt]).
    destruct (parse_options fuel buffer offset max_length [] (my_offset + used_buffer))
      as [[parsed n] | |]; simpl; try reflexivity.
    rewrite <- app_assoc. reflexivity.
Qed.

(** More fuel does not change a result. *)
Lemma parse_options_fuel (fuel fuel' : nat) (buffer : byteslike) (offset max_length : Z)
    (existing : list Option) (my_offset : Z) (r : list Option * Z) :
  (fuel <= fuel')%nat ->
  parse_options fuel buffer offset max_length existing my_offset = Ok r ->
  parse_options fuel' buffer offset max_length existing my_offset = Ok r.
Proof.
  revert fuel' existing my_offset.
  induction fuel as [| fuel IH]; intros fuel' existing my_offset Hle; simpl.
  - destruct fuel'; simpl; destruct (max_length >? my_offset); try discriminate; auto.
  - destruct fuel' as [| fuel']; [lia |]. simpl.
    destruct (max_length >? my_offset); [| auto].
    destruct (Option_parse buffer (offset + my_offset)) as [[used_buffer opt] | |]; simpl;
      try discriminate.
    apply IH. lia.
Qed.

(** C10: [load_from] of a client-server or relay message appends to the
    options the instance already holds: after a successful call the
    options are the original ones followed by the options the loop
    parses from the buffer, in order; only an instance that held none, as
    [parse] creates it, ends up with exactly the parsed options. *)
Theorem load_from_appends_options (fuel : nat) (self self' : Message) (buffer : byteslike)
    (offset : Z) (length : option Z) (n : Z) :
  type_of self <> class_UnknownMessage ->
  load_from fuel self buffer offset length = Ok (n, self') ->
  exists parsed,
    parse_options fuel buffer offset (or_else length (len (data_of buffer) - offset)) []
      (header_length self) = Ok (parsed, n) /\
    options_of self' = options_of self ++ parsed /\
    (options_of self' = parsed <-> options_of self = []).
Proof.
  intros Hclass H.
  assert (forall existing parsed : list Option,
             existing ++ parsed = parsed <-> existing = []) as Honly.
  { intros existing parsed. split; [| intros ->; reflexivity].
    intros Heq. apply (app_inv_tail parsed existing []). exact Heq. }
  destruct self as [t d | variant tid options | variant t hops link peer options];
    [contradiction Hclass; reflexivity | |];
    unfold load_from in H; unfold header_length, options_of at 2 4.
  - unfold ClientServerMessage_load_from in H. cbv zeta in H.
    bind_inv H as tag Htag. destruct (negb _); [discriminate |].
    rewrite parse_options_acc in H. bind_inv H as loop Hloop.
    bind_inv Hloop as fresh Hfresh. destruct fresh as [parsed m].
    injection Hloop as <-. simpl fst in H. simpl snd in H.
    bind_inv H as valid Hvalid. injection H as <- <-.
    exists parsed. simpl options_of. repeat split; [exact Hfresh | apply Honly ..].
  - unfold RelayServerMessage_load_from in H. cbv zeta in H.
    bind_inv H as tag Htag. bind_inv H as hop Hhop.
    bind_inv H as link' Hlink. bind_inv H as peer' Hpeer.
    rewrite parse_options_acc in H. bind_inv H as loop Hloop.
    bind_inv Hloop as fresh Hfresh. destruct fresh as [parsed m].
    injection Hloop as <-. simpl fst in H. simpl snd in H.
    bind_inv H as valid Hvalid. injection H as <- <-.
    exists parsed. simpl options_of. repeat split; [exact Hfresh | apply Honly ..].
Qed.

(** *** Saving, and loading what was saved *)

Lemma IPv6Address_packed_len (a : IPv6Address) : len (packed a) = 16.
Proof.
  destruct a as [address H]. unfold packed, len. simpl.
  apply Nat.eqb_eq in H. rewrite H. reflexivity.
Qed.

Lemma IPv6Address_new_packed (a : IPv6Address) :
  IPv6Address_new (Bytes (packed a)) = Ok a.
Proof.
  destruct a as [address H]. unfold IPv6Address_new, packed. simpl.
  destruct (bool_dec (Nat.eqb (List.length address) 16) true) as [H' | N];
    [| contradiction].
  do 2 f_equal. apply UIP_dec. apply bool_dec.
Qed.

Lemma registry_get_ClientServer (variant : ClientServerVariant) :
  registry_get (ClientServer_message_type variant) class_UnknownMessage
  = class_ClientServerMessage variant.
Proof. destruct variant; reflexivity. Qed.

Lemma registry_get_RelayServer (variant : RelayServerVariant) :
  registry_get (RelayServer_message_type variant) class_UnknownMessage
  = class_RelayServerMessage variant.
Proof. destruct variant; reflexivity. Qed.

(** What [save] appends for the options is the concatenation of what
    each option saves. *)
Lemma extend_options_concat (options : list Option) (buffer saved : bytes) :
  extend_options buffer options = Ok saved ->
  exists encodings,
    Forall2 (fun opt encoding => Option_save opt = Ok encoding) options encodings /\
    saved = buffer ++ List.concat encodings.
Proof.
  revert buffer. induction options as [| opt rest IH]; intros buffer H; simpl in H.
  - injection H as <-. exists []. split; [constructor |]. simpl. rewrite app_nil_r.
    reflexivity.
  - bind_inv H as encoding Hencoding. apply IH in H. destruct H as (encodings & Hall & ->).
    exists (encoding :: encodings). split; [constructor; assumption |].
    simpl. rewrite <- app_assoc. reflexivity.
Qed.

(** What a successful [save] tells about the instance and about the
    bytes. *)
Lemma validate_transaction_id (variant : ClientServerVariant) (transaction_id : byteslike)
    (options : list Option) :
  validate (ClientServerMessage variant transaction_id options) = Ok tt ->
  exists tid, transaction_id = Bytes tid /\ len tid = 3.
Proof.
  unfold validate. destruct transaction_id as [tid | tid]; simpl is_bytes; simpl data_of.
  - destruct (Z.eqb_spec (len tid) 3) as [T | T]; [eauto |].
    cbv beta iota delta [negb orb]. discriminate.
  - cbv beta iota delta [negb orb]. discriminate.
Qed.

Lemma save_ClientServerMessage_Ok (variant : ClientServerVariant)
    (transaction_id : byteslike) (options : list Option) (saved : byteslike) :
  save (ClientServerMessage variant transaction_id options) = Ok saved ->
  validate (ClientServerMessage variant transaction_id options) = Ok tt /\
  exists tid tag encodings,
    transaction_id = Bytes tid /\
    len tid = 3 /\
    byte_of_int (ClientServer_message_type variant) = Ok tag /\
    Forall2 (fun opt encoding => Option_save opt = Ok encoding) options encodings /\
    saved = Bytearray ([tag] ++ tid ++ List.concat encodings).
Proof.
  intros H. unfold save in H. bind_inv H as valid Hvalid. destruct valid.
  bind_inv H as tag Htag. bind_inv H as buffer Hbuffer. injection H as <-.
  apply extend_options_concat in Hbuffer. destruct Hbuffer as (encodings & Hall & ->).
  split; [exact Hvalid |].
  destruct (validate_transaction_id _ _ _ Hvalid) as (tid & -> & Htid).
  exists tid, tag, encodings. repeat split; assumption.
Qed.

Lemma save_RelayServerMessage_Ok (variant : RelayServerVariant) (message_type hop_count : Z)
    (link_address peer_address : option IPv6Address) (options : list Option)
    (saved : byteslike) :
  save (RelayServerMessage variant message_type hop_count link_address peer_address options)
    = Ok saved ->
  validate (RelayServerMessage variant message_type hop_count link_address peer_address
              options) = Ok tt /\
  exists tag hops link peer encodings,
    byte_of_int message_type = Ok tag /\
    byte_of_int hop_count = Ok hops /\
    link_address = Some link /\
    peer_address = Some peer /\
    Forall2 (fun opt encoding => Option_save opt = Ok encoding) options encodings /\
    saved = Bytearray ([tag] ++ [hops] ++ packed link ++ packed peer
                         ++ List.concat encodings).
Proof.
  intros H. unfold save in H. bind_inv H as valid Hvalid. destruct valid.
  bind_inv H as tag Htag. bind_inv H as hops Hhops.
  bind_inv H as link_bytes Hlink. bind_inv H as peer_bytes Hpeer.
  bind_inv H as buffer Hbuffer. injection H as <-.
  apply extend_options_concat in Hbuffer. destruct Hbuffer as (encodings & Hall & ->).
  split; [exact Hvalid |].
  destruct link_address as [link |]; [| discriminate].
  destruct peer_address as [peer |]; [| discriminate].
  injection Hlink as <-. injection Hpeer as <-.
  exists tag, hops, link, peer, encodings. repeat split; try assumption.
  simpl. rewrite <- !app_assoc. reflexivity.
Qed.

(** Over the encodings of [options] in a [bytes] buffer, the loop
    parses [options] back, when each keeps the option contract, and stops
    exactly at their end, whatever follows in the buffer. *)
Lemma parse_options_saved (options : list Option) (encodings : list bytes) :
  Forall2 (fun opt encoding => Option_save opt = Ok encoding) options encodings ->
  Forall option_codec options ->
  forall (buffer pre done rest : bytes) (max_length : Z) (existing : list Option)
         (fuel : nat),
    buffer = pre ++ done ++ List.concat encodings ++ rest ->
    max_length = len done + len (List.concat encodings) ->
    (List.length options <= fuel)%nat ->
    parse_options fuel (Bytes buffer) (len pre) max_length existing (len done)
    = Ok (existing ++ options, max_length).
Proof.
  induction 1 as [| opt encoding options encodings Hsave _ IH];
    intros Hcodec buffer pre done rest max_length existing fuel Hbuffer Hmax Hfuel.
  - simpl in Hmax. rewrite len_nil, Z.add_0_r in Hmax. subst max_length.
    rewrite app_nil_r.
    destruct fuel; simpl; rewrite Z.gtb_ltb, Z.ltb_irrefl; reflexivity.
  - destruct fuel as [| fuel]; [simpl in Hfuel; lia |].
    inversion Hcodec as [| opt' options' contract Hcodec']; subst opt' options'.
    destruct (contract encoding (pre ++ done) (List.concat encodings ++ rest) Hsave)
      as [Hne Hparse].
    assert (0 < len encoding) as Hpos.
    { destruct encoding; [contradiction Hne; reflexivity |].
      rewrite len_cons. pose proof (len_nonneg encoding). lia. }
    simpl in Hbuffer, Hmax. rewrite len_app in Hmax.
    simpl parse_options.
    replace (max_length >? len done) with true
      by (symmetry; rewrite Z.gtb_ltb; apply Z.ltb_lt;
          pose proof (len_nonneg (List.concat encodings)); lia).
    replace (Option_parse (Bytes buffer) (len pre + len done))
      with (Ok (len encoding, opt))
      by (rewrite <- Hparse, len_app; do 2 f_equal; subst buffer;
          rewrite <- !app_assoc; reflexivity).
    simpl bind. rewrite <- len_app.
    rewrite (IH Hcodec' buffer pre (done ++ encoding) rest max_length).
    + rewrite <- app_assoc. reflexivity.
    + subst buffer. rewrite <- !app_assoc. reflexivity.
    + rewrite len_app. lia.
    + simpl in Hfuel. lia.
Qed.

(** [ClientServerMessage.load_from] over a tag, a transaction id and
    the encodings of [options], read at any offset of a buffer that
    may go on: the loop adds [options] to the instance and exactly the
    declared length is consumed; what is left is [validate]. *)
Lemma ClientServerMessage_load_from_saved (variant : ClientServerVariant) (tag : byte)
    (transaction_id : bytes) (options existing : list Option)
    (encodings : list bytes) (pre rest : bytes) (fuel : nat) :
  byte_of_int (ClientServer_message_type variant) = Ok tag ->
  len transaction_id = 3 ->
  Forall2 (fun opt encoding => Option_save opt = Ok encoding) options encodings ->
  Forall option_codec options ->
  (List.length options <= fuel)%nat ->
  let saved := [tag] ++ transaction_id ++ List.concat encodings in
  let loaded := ClientServerMessage variant (Bytes transaction_id) (existing ++ options) in
  ClientServerMessage_load_from fuel variant existing (Bytes (pre ++ saved ++ rest))
    (len pre) (Some (len saved))
  = (validate loaded ;;; Ok (len saved, loaded)).
Proof.
  intros Htag Htid Hsaved Hcodec Hfuel saved loaded.
  pose proof (len_nonneg (List.concat encodings)) as Hc.
  assert (len saved = 4 + len (List.concat encodings)) as Hlen.
  { unfold saved. rewrite !len_app, Htid. rewrite len_cons, len_nil. lia. }
  assert (getitem (pre ++ saved ++ rest) (len pre + 0)
          = Ok (ClientServer_message_type variant)) as Hg.
  { rewrite getitem_app by lia. unfold saved. simpl app. rewrite getitem_head.
    f_equal. apply int_of_byte_of_int. exact Htag. }
  assert (slice (pre ++ saved ++ rest) (len pre + (0 + 1)) (len pre + (0 + 1) + 3)
          = transaction_id) as Hs.
  { replace (pre ++ saved ++ rest)
      with ((pre ++ [tag]) ++ transaction_id ++ (List.concat encodings ++ rest))
      by (unfold saved; rewrite <- !app_assoc; reflexivity).
    replace (len pre + (0 + 1)) with (len (pre ++ [tag]))
      by (rewrite len_app, len_cons, len_nil; lia).
    rewrite <- Htid. apply slice_middle. }
  assert (or_else (Some (len saved)) (len (pre ++ saved ++ rest) - len pre) = len saved)
    as Hor.
  { unfold or_else. destruct (Z.eqb_spec (len saved) 0); [lia | reflexivity]. }
  assert (parse_options fuel (Bytes (pre ++ saved ++ rest)) (len pre) (len saved) existing
            (0 + 1 + 3) = Ok (existing ++ options, len saved)) as Hp.
  { replace (0 + 1 + 3) with (len ([tag] ++ transaction_id))
      by (rewrite len_app, Htid, len_cons, len_nil; lia).
    apply (parse_options_saved options encodings Hsaved Hcodec (pre ++ saved ++ rest) pre
             ([tag] ++ transaction_id) rest (len saved) existing fuel).
    - unfold saved. rewrite <- !app_assoc. reflexivity.
    - unfold saved. rewrite !len_app. lia.
    - exact Hfuel. }
  unfold ClientServerMessage_load_from. cbv zeta.
  cbv beta iota delta [data_of sliced].
  rewrite Hg. cbv beta iota delta [bind]. rewrite Z.eqb_refl.
  cbv beta iota delta [negb]. rewrite Hs, Hor, Hp. reflexivity.
Qed.

(** The same for [RelayServerMessage.load_from], over a tag, a hop
    count, two addresses and the encodings of [options]. *)
Lemma RelayServerMessage_load_from_saved (variant : RelayServerVariant) (tag hops : byte)
    (link_address peer_address : IPv6Address) (options existing : list Option)
    (encodings : list bytes) (pre rest : bytes) (fuel : nat) :
  Forall2 (fun opt encoding => Option_save opt = Ok encoding) options encodings ->
  Forall option_codec options ->
  (List.length options <= fuel)%nat ->
  let saved := [tag] ++ [hops] ++ packed link_address ++ packed peer_address
                 ++ List.concat encodings in
  let loaded := RelayServerMessage variant (int_of_byte tag) (int_of_byte hops)
                  (Some link_address) (Some peer_address) (existing ++ options) in
  RelayServerMessage_load_from fuel variant existing (Bytes (pre ++ saved ++ rest))
    (len pre) (Some (len saved))
  = (validate loaded ;;; Ok (len saved, loaded)).
Proof.
  intros Hsaved Hcodec Hfuel saved loaded.
  pose proof (len_nonneg (List.concat encodings)) as Hc.
  pose proof (IPv6Address_packed_len link_address) as Hlink.
  pose proof (IPv6Address_packed_len peer_address) as Hpeer.
  assert (len saved = 34 + len (List.concat encodings)) as Hlen.
  { unfold saved. rewrite !len_app, Hlink, Hpeer. rewrite !len_cons, len_nil. lia. }
  assert (getitem (pre ++ saved ++ rest) (len pre + 0) = Ok (int_of_byte tag)) as Hg.
  { rewrite getitem_app by lia. unfold saved. simpl app. apply getitem_head. }
  assert (getitem (pre ++ saved ++ rest) (len pre + (0 + 1)) = Ok (int_of_byte hops))
    as Hh.
  { rewrite getitem_app by lia. unfold saved. simpl app. change (0 + 1) with (1 + 0).
    rewrite getitem_tail by lia. apply getitem_head. }
  assert (slice (pre ++ saved ++ rest) (len pre + (0 + 1 + 1))
            (len pre + (0 + 1 + 1) + 16) = packed link_address) as Hl.
  { replace (pre ++ saved ++ rest)
      with ((pre ++ [tag; hops]) ++ packed link_address
              ++ (packed peer_address ++ List.concat encodings ++ rest))
      by (unfold saved; rewrite <- !app_assoc; reflexivity).
    replace (len pre + (0 + 1 + 1)) with (len (pre ++ [tag; hops]))
      by (rewrite len_app, !len_cons, len_nil; lia).
    rewrite <- Hlink. apply slice_middle. }
  assert (slice (pre ++ saved ++ rest) (len pre + (0 + 1 + 1 + 16))
            (len pre + (0 + 1 + 1 + 16) + 16) = packed peer_address) as Hq.
  { replace (pre ++ saved ++ rest)
      with ((pre ++ [tag; hops] ++ packed link_address) ++ packed peer_address
              ++ (List.concat encodings ++ rest))
      by (unfold saved; rewrite <- !app_assoc; reflexivity).
    replace (len pre + (0 + 1 + 1 + 16))
      with (len (pre ++ [tag; hops] ++ packed link_address))
      by (rewrite !len_app, Hlink, !len_cons, len_nil; lia).
    rewrite <- Hpeer. apply slice_middle. }
  assert (or_else (Some (len saved)) (len (pre ++ saved ++ rest) - len pre) = len saved)
    as Hor.
  { unfold or_else. destruct (Z.eqb_spec (len saved) 0); [lia | reflexivity]. }
  assert (parse_options fuel (Bytes (pre ++ saved ++ rest)) (len pre) (len saved) existing
            (0 + 1 + 1 + 16 + 16) = Ok (existing ++ options, len saved)) as Hp.
  { replace (0 + 1 + 1 + 16 + 16)
      with (len ([tag; hops] ++ packed link_address ++ packed peer_address))
      by (rewrite !len_app, Hlink, Hpeer, !len_cons, len_nil; lia).
    apply (parse_options_saved options encodings Hsaved Hcodec (pre ++ saved ++ rest) pre
             ([tag; hops] ++ packed link_address ++ packed peer_address) rest
             (len saved) existing fuel).
    - unfold saved. rewrite <- !app_assoc. reflexivity.
    - unfold saved. rewrite !len_app, !len_cons, !len_nil. lia.
    - exact Hfuel. }
  unfold RelayServerMessage_load_from. cbv zeta.
  cbv beta iota delta [data_of sliced].
  rewrite Hg. cbv beta iota delta [bind]. rewrite Hh. cbv beta iota delta [bind].
  rewrite Hl, IPv6Address_new_packed. cbv beta iota delta [bind].
  rewrite Hq, IPv6Address_new_packed. cbv beta iota delta [bind].
  rewrite Hor, Hp. reflexivity.
Qed.

(** Parsing the bytes a registered instance saved, out of a [bytes]
    buffer that holds them at any offset and may go on after them, with
    the saved length declared: exactly that length is consumed and the
    instance comes back. *)
Lemma parse_saved (x : Message) (saved : byteslike) (pre rest : bytes) (fuel : nat) :
  Forall option_codec (options_of x) ->
  registered_instance x = true ->
  save x = Ok saved ->
  (List.length (options_of x) <= fuel)%nat ->
  parse fuel (Bytes (pre ++ data_of saved ++ rest)) (len pre) (Some (len (data_of saved)))
  = Ok (len (data_of saved), x).
Proof.
  intros Hcodec Hreg Hsave Hfuel.
  destruct x as [t d | variant tid options | variant t hops link peer options];
    [discriminate Hreg | |]; simpl in Hfuel, Hcodec.
  - apply save_ClientServerMessage_Ok in Hsave.
    destruct Hsave as (Hvalid & tid' & tag & encodings & -> & Htid & Htag & Hall & ->).
    unfold parse, determine_class. cbv beta iota delta [data_of].
    rewrite getitem_app_0. simpl app at 1. rewrite getitem_head.
    rewrite (int_of_byte_of_int _ _ Htag). cbv beta iota delta [bind].
    rewrite registry_get_ClientServer. cbv beta iota delta [new load_from].
    rewrite (ClientServerMessage_load_from_saved variant tag tid' options [] encodings
               pre rest fuel Htag Htid Hall Hcodec Hfuel).
    simpl app at 1. rewrite Hvalid. reflexivity.
  - apply save_RelayServerMessage_Ok in Hsave.
    destruct Hsave as (Hvalid & tag & hb & l & p & encodings & Htag & Hhops
                       & -> & -> & Hall & ->).
    simpl in Hreg. apply Z.eqb_eq in Hreg.
    apply int_of_byte_of_int in Htag, Hhops.
    unfold parse, determine_class. cbv beta iota delta [data_of].
    rewrite getitem_app_0. simpl app at 1. rewrite getitem_head.
    rewrite Htag, Hreg. cbv beta iota delta [bind].
    rewrite registry_get_RelayServer. cbv beta iota delta [new load_from].
    rewrite (RelayServerMessage_load_from_saved variant tag hb l p options []
               encodings pre rest fuel Hall Hcodec Hfuel).
    simpl app at 1. rewrite Htag, Hhops, Hreg. rewrite Hreg in Hvalid.
    rewrite Hvalid. reflexivity.
Qed.

(** C1, amended: for every instance [x] of one of the thirteen
    registered classes (a subclass of [ClientServerMessage] or of
    [RelayServerMessage], carrying the [message_type] of its class)
    that [save] accepts and whose options each keep the option contract,
    [Message.parse] on a [bytes] object that holds the bytes of [save(x)],
    with the declared length [len(save(x))], returns [(len(save(x)), x)]. *)
Theorem parse_save_registered (x : Message) (saved : byteslike) (fuel : nat) :
  Forall option_codec (options_of x) ->
  registered_instance x = true ->
  save x = Ok saved ->
  (List.length (options_of x) <= fuel)%nat ->
  parse fuel (Bytes (data_of saved)) 0 (Some (len (data_of saved)))
  = Ok (len (data_of saved), x).
Proof.
  intros Hcodec Hreg Hsave Hfuel.
  pose proof (parse_saved x saved [] [] fuel Hcodec Hreg Hsave Hfuel) as H.
  rewrite app_nil_r in H. exact H.
Qed.

(** *** Wrapping a response *)

Lemma wrap_response_RelayForwardMessage (message_type hop_count : Z)
    (link_address peer_address : option IPv6Address) (options : list Option)
    (response : Message) :
  wrap_response
    (RelayServerMessage RelayForwardMessage message_type hop_count link_address
       peer_address options) response
  = (my_options <- wrap_options (fun inner => wrap_response inner response)
                     response options [] ;;
     Ok (RelayServerMessage RelayReplyMessage MSG_RELAY_REPL hop_count link_address
           peer_address my_options)).
Proof. reflexivity. Qed.

(** The loop started on [my_options] returns [my_options] followed by
    what the loop started on an empty list returns. *)
Lemma wrap_options_acc (wrap : Message -> outcome Message) (response : Message)
    (options my_options : list Option) :
  wrap_options wrap response options my_options
  = (wrapped <- wrap_options wrap response options [] ;; Ok (my_options ++ wrapped)).
Proof.
  revert my_options. induction options as [| opt rest IH]; intros my_options.
  - simpl. rewrite app_nil_r. reflexivity.
  - assert (forall added,
               wrap_options wrap response rest (my_options ++ [added])
               = (wrapped <- wrap_options wrap response rest ([] ++ [added]) ;;
                  Ok (my_options ++ wrapped))) as Hadd.
    { intros added. rewrite (IH (my_options ++ [added])), (IH ([] ++ [added])).
      destruct (wrap_options wrap response rest []); simpl; try reflexivity.
      rewrite <- app_assoc. reflexivity. }
    simpl wrap_options.
    destruct (echo_to_relay opt); [apply Hadd |].
    destruct opt as [inner | o]; [| apply IH].
    destruct inner as [t d | variant tid inner_options
                      | variant t hops link peer inner_options];
      [reflexivity | apply Hadd |].
    destruct variant; [| reflexivity].
    destruct (wrap _) as [wrapped | e |]; simpl bind; [apply Hadd | reflexivity ..].
Qed.

(** Neither the loop nor [wrap_response] can run out of fuel: they
    return or raise. *)
Lemma wrap_options_no_loop (wrap : Message -> outcome Message) (response : Message)
    (options my_options : list Option) :
  Forall (relayed_P (fun inner => wrap inner <> NoFuel)) options ->
  wrap_options wrap response options my_options <> NoFuel.
Proof.
  intros Hall. revert my_options.
  induction Hall as [| opt rest Hopt _ IH]; intros my_options; simpl; [discriminate |].
  destruct (echo_to_relay opt); [apply IH |].
  destruct opt as [inner | o]; [| apply IH].
  destruct inner as [t d | variant tid inner_options
                    | variant t hops link peer inner_options];
    [discriminate | apply IH |].
  destruct variant; [| discriminate].
  simpl in Hopt. destruct (wrap _) as [wrapped | e |]; simpl;
    [apply IH | discriminate | contradiction Hopt; reflexivity].
Qed.

Lemma wrap_response_no_loop (self response : Message) :
  wrap_response self response <> NoFuel.
Proof.
  induction self as [t d | variant tid options _
                    | variant t hops link peer options IH] using Message_nested_ind;
    [discriminate | discriminate |].
  destruct variant; [| discriminate].
  rewrite wrap_response_RelayForwardMessage.
  pose proof (wrap_options_no_loop (fun inner => wrap_response inner response) response
                options [] IH) as Hloop.
  destruct (wrap_options _ response options []); simpl;
    [discriminate | discriminate | contradiction Hloop; reflexivity].
Qed.

(** A relay message option that is not echoed and embeds neither a
    relay-forward nor a client-server message makes the loop raise. *)
Lemma wrap_options_invalid (wrap : Message -> outcome Message) (response inner : Message)
    (options my_options : list Option) :
  (forall m, wrap m <> NoFuel) ->
  In (RelayMessageOption inner) options ->
  echo_to_relay (RelayMessageOption inner) = false ->
  is_RelayForwardMessage inner = false ->
  is_ClientServerMessage inner = false ->
  raises (wrap_options wrap response options my_options).
Proof.
  intros Hwrap Hin Hecho Hrelay Hclient. revert my_options.
  induction options as [| opt rest IH]; intros my_options; [contradiction Hin |].
  destruct Hin as [-> | Hin].
  - simpl. rewrite Hecho.
    destruct inner as [t d | variant tid inner_options
                      | variant t hops link peer inner_options].
    + eexists; reflexivity.
    + discriminate Hclient.
    + destruct variant; [discriminate Hrelay | eexists; reflexivity].
  - specialize (IH Hin). simpl.
    destruct (echo_to_relay opt); [apply IH |].
    destruct opt as [other | o]; [| apply IH].
    destruct other as [t d | variant tid inner_options
                      | variant t hops link peer inner_options];
      [eexists; reflexivity | apply IH |].
    destruct variant; [| eexists; reflexivity].
    destruct (wrap _) as [wrapped | e |] eqn:E; simpl;
      [apply IH | eexists; reflexivity | contradiction (Hwrap _ E)].
Qed.

(** C9: [wrap_response] of a relay-forward message raises when one of
    its options is a relay message option, not marked [echo_to_relay],
    whose embedded message is neither a [RelayForwardMessage] nor a
    [ClientServerMessage]. *)
Theorem wrap_response_invalid_embedding (message_type hop_count : Z)
    (link_address peer_address : option IPv6Address) (options : list Option)
    (inner response : Message) :
  In (RelayMessageOption inner) options ->
  echo_to_relay (RelayMessageOption inner) = false ->
  is_RelayForwardMessage inner = false ->
  is_ClientServerMessage inner = false ->
  raises (wrap_response
            (RelayServerMessage RelayForwardMessage message_type hop_count link_address
               peer_address options) response).
Proof.
  intros Hin Hecho Hrelay Hclient.
  rewrite wrap_response_RelayForwardMessage. apply bind_raises.
  apply (wrap_options_invalid _ response inner); try assumption.
  intros m. apply wrap_response_no_loop.
Qed.

(** The nesting depth counts along [relayed_message]. *)
Lemma nesting_depth_relayed_message (self : Message) :
  nesting_depth self =
  match self with
  | RelayServerMessage _ _ _ _ _ _ =>
      S (match relayed_message self with
         | Some inner => nesting_depth inner
         | None => O
         end)
  | _ => O
  end.
Proof.
  destruct self as [t d | variant tid options | variant t hops link peer options];
    try reflexivity.
  unfold relayed_message. simpl. f_equal.
  induction options as [| [inner | o] rest IH]; simpl; auto.
Qed.

Lemma relay_chain_RelayForwardMessage (message_type hop_count : Z)
    (link_address peer_address : option IPv6Address) (options : list Option) :
  relay_chain (RelayServerMessage RelayForwardMessage message_type hop_count link_address
                 peer_address options)
  = forallb
      (fun opt =>
         echo_to_relay opt ||
         match opt with
         | RelayMessageOption inner => is_ClientServerMessage inner || relay_chain inner
         | OtherOption _ => true
         end)
      options.
Proof. reflexivity. Qed.

(** Over the options of a relay chain the loop returns, and returns
    what the specification describes; at the same depth when the response
    is a client-server message. *)
Lemma wrap_options_chain (response : Message) (options : list Option) :
  Forall (relayed_P (fun inner =>
                       relay_chain inner = true ->
                       exists reply,
                         wrap_response inner response = Ok reply /\
                         (is_ClientServerMessage response = true ->
                          nesting_depth reply = nesting_depth inner))) options ->
  forallb
    (fun opt =>
       echo_to_relay opt ||
       match opt with
       | RelayMessageOption inner => is_ClientServerMessage inner || relay_chain inner
       | OtherOption _ => true
       end)
    options = true ->
  exists my_options,
    wrap_options (fun inner => wrap_response inner response) response options []
      = Ok my_options /\
    wrapped_as_specified response options my_options /\
    (is_ClientServerMessage response = true ->
     relayed_depth nesting_depth my_options = relayed_depth nesting_depth options).
Proof.
  intros Hall.
  assert (is_ClientServerMessage response = true -> nesting_depth response = O) as Hdepth
      by (destruct response; [discriminate | reflexivity | discriminate]).
  induction Hall as [| opt rest Hopt _ IH]; intros Hchain.
  - exists []. repeat split. constructor.
  - simpl in Hchain. apply andb_prop in Hchain. destruct Hchain as [Hhead Hrest].
    destruct (IH Hrest) as (my_rest & Hloop & Hspec & Hd). clear IH.
    simpl wrap_options. destruct (echo_to_relay opt) eqn:Hecho.
    + rewrite wrap_options_acc, Hloop. exists (opt :: my_rest).
      repeat split; [constructor; assumption |].
      destruct opt; simpl; auto.
    + simpl in Hhead. destruct opt as [inner | o].
      * destruct inner as [t d | variant tid inner_options
                          | variant t hops link peer inner_options].
        -- discriminate Hhead.
        -- rewrite wrap_options_acc, Hloop.
           exists (RelayMessageOption response :: my_rest).
           repeat split; [apply wrapped_client; auto |].
           simpl. exact Hdepth.
        -- destruct variant; [| discriminate Hhead].
           unfold relayed_P in Hopt. destruct (Hopt Hhead) as (reply & Hreply & Hinner).
           cbv beta. rewrite Hreply. simpl bind. rewrite wrap_options_acc, Hloop.
           exists (RelayMessageOption reply :: my_rest).
           repeat split; [apply wrapped_relay; auto |].
           simpl relayed_depth. exact Hinner.
      * exists my_rest. repeat split; [exact Hloop | apply wrapped_dropped; auto |].
        simpl. exact Hd.
Qed.

Lemma wrap_response_chain_depth (response self : Message) :
  relay_chain self = true ->
  exists reply,
    wrap_response self response = Ok reply /\
    (is_ClientServerMessage response = true ->
     nesting_depth reply = nesting_depth self).
Proof.
  induction self as [t d | variant tid options _
                    | variant t hops link peer options IH] using Message_nested_ind;
    intros Hchain; try discriminate Hchain.
  destruct variant; [| discriminate Hchain].
  rewrite relay_chain_RelayForwardMessage in Hchain.
  destruct (wrap_options_chain response options IH Hchain)
    as (my_options & Hloop & _ & Hd).
  rewrite wrap_response_RelayForwardMessage, Hloop.
  eexists. split; [reflexivity |]. intros Hresponse. simpl. rewrite (Hd Hresponse).
  reflexivity.
Qed.

(** C2: for a relay-forward message whose options form a relay chain
    ending in a client-server message, [wrap_response(response)] returns a
    [RelayReplyMessage] with the same hop count, link address and peer
    address; its options are those of the message with every option marked
    [echo_to_relay] copied unchanged, a relay message option around a
    relay-forward message replaced by one around the [wrap_response] of
    that message, a relay message option around a client-server message
    replaced by one around [response], and every other option dropped;
    for a [response] that is a client-server message, as the signature
    asks, its nesting depth is that of the chain. *)
Theorem wrap_response_relay_chain (message_type hop_count : Z)
    (link_address peer_address : option IPv6Address) (options : list Option)
    (response : Message) :
  let self := RelayServerMessage RelayForwardMessage message_type hop_count link_address
                peer_address options in
  relay_chain self = true ->
  exists my_options,
    let reply := RelayServerMessage RelayReplyMessage MSG_RELAY_REPL hop_count
                   link_address peer_address my_options in
    wrap_response self response = Ok reply /\
    wrapped_as_specified response options my_options /\
    (is_ClientServerMessage response = true ->
     nesting_depth reply = nesting_depth self).
Proof.
  intros self Hchain. unfold self in *.
  rewrite relay_chain_RelayForwardMessage in Hchain.
  assert (Forall (relayed_P (fun inner =>
                               relay_chain inner = true ->
                               exists reply,
                                 wrap_response inner response = Ok reply /\
                                 (is_ClientServerMessage response = true ->
                                  nesting_depth reply = nesting_depth inner))) options)
    as Hall.
  { apply Forall_forall. intros [inner | o] _; simpl; [| exact I].
    apply wrap_response_chain_depth. }
  destruct (wrap_options_chain response options Hall Hchain)
    as (my_options & Hloop & Hspec & Hd).
  exists my_options. cbv zeta.
  rewrite wrap_response_RelayForwardMessage, Hloop.
  repeat split; [exact Hspec |]. intros Hresponse. simpl. rewrite (Hd Hresponse).
  reflexivity.
Qed.

(** *** Unknown tags, tags and declared lengths *)

(** Whenever the tag is not registered, [parse] raises: the constructor
    of [UnknownMessage] is called without its [message_type]. *)
Lemma parse_unregistered_raises (fuel : nat) (buffer : byteslike) (offset : Z)
    (length : option Z) :
  determine_class buffer offset = Ok class_UnknownMessage ->
  parse fuel buffer offset length
  = Raise (TypeError "__init__() missing 1 required positional argument: 'message_type'").
Proof. intros H. unfold parse. rewrite H. reflexivity. Qed.

Lemma getitem_range (buffer : bytes) (i v : Z) : getitem buffer i = Ok v -> 0 <= v < 256.
Proof.
  unfold getitem. destruct (_ && _); [| discriminate].
  destruct (nth_error _ _) as [b |]; [| discriminate].
  intros H. injection H as <-. apply int_of_byte_range.
Qed.

(** On an instance, with a length and a [bytes] buffer,
    [UnknownMessage.load_from] keeps the tag and the bytes that follow it
    up to the declared length, and reports the declared length; the slice
    of a [bytearray] does not pass [validate]. *)
Lemma UnknownMessage_load_from_Some (buffer : byteslike) (offset length tag : Z) :
  getitem (data_of buffer) offset = Ok tag ->
  UnknownMessage_load_from buffer offset (Some length)
  = if is_bytes buffer then
      Ok (length, UnknownMessage tag (sliced buffer (offset + 1) (offset + length)))
    else Raise (ValueError "Message data must consist of bytes").
Proof.
  intros Htag. unfold UnknownMessage_load_from. cbv zeta.
  rewrite Z.add_0_r, Htag. cbv beta iota delta [bind].
  apply getitem_range in Htag. unfold validate.
  replace ((0 <=? tag) && (tag <? 2 ^ 8)) with true
    by (symmetry; apply andb_true_intro; split; [apply Z.leb_le | apply Z.ltb_lt]; lia).
  cbv beta iota delta [negb].
  replace (0 + 1 + (length - (0 + 1))) with length by lia.
  replace (offset + (0 + 1) + (length - (0 + 1))) with (offset + length) by lia.
  destruct buffer; reflexivity.
Qed.

(** Without a length it raises. *)
Lemma UnknownMessage_load_from_None (buffer : byteslike) (offset tag : Z) :
  getitem (data_of buffer) offset = Ok tag ->
  UnknownMessage_load_from buffer offset None
  = Raise (TypeError "unsupported operand type(s) for -: 'NoneType' and 'int'").
Proof.
  intros Htag. unfold UnknownMessage_load_from. cbv zeta.
  rewrite Z.add_0_r, Htag. reflexivity.
Qed.

(** The option loop only stops at or past [max_length]; nothing compares
    the two afterwards. *)
Lemma parse_options_reaches (fuel : nat) (buffer : byteslike) (offset max_length : Z)
    (existing parsed : list Option) (my_offset n : Z) :
  parse_options fuel buffer offset max_length existing my_offset = Ok (parsed, n) ->
  max_length <= n.
Proof.
  revert existing my_offset. induction fuel as [| fuel IH]; intros existing my_offset; simpl.
  - destruct (Z.gtb_spec max_length my_offset) as [Hgt | Hle]; [discriminate |].
    intros Hret. injection Hret as _ <-. lia.
  - destruct (Z.gtb_spec max_length my_offset) as [Hgt | Hle].
    + destruct (Option_parse buffer (offset + my_offset)) as [[used_buffer opt] | |]; simpl;
        try discriminate.
      apply IH.
    + intros Hret. injection Hret as _ <-. lia.
Qed.

(** [ClientServerMessage.load_from] only returns when the tag in the
    buffer is the one of the class. *)
Lemma ClientServerMessage_load_from_tag (fuel : nat) (variant : ClientServerVariant)
    (options : list Option) (buffer : byteslike) (offset : Z) (length : option Z)
    (n : Z) (self' : Message) :
  ClientServerMessage_load_from fuel variant options buffer offset length = Ok (n, self') ->
  getitem (data_of buffer) offset = Ok (ClientServer_message_type variant).
Proof.
  unfold ClientServerMessage_load_from. cbv zeta. rewrite Z.add_0_r. intros H.
  bind_inv H as tag Htag. rewrite Htag.
  destruct (Z.eqb_spec tag (ClientServer_message_type variant)) as [-> | _];
    [reflexivity | discriminate H].
Qed.

(** [RelayServerMessage.load_from] returns with whatever tag the buffer
    holds as the [message_type] of the instance. *)
Lemma RelayServerMessage_load_from_tag (fuel : nat) (variant : RelayServerVariant)
    (options : list Option) (buffer : byteslike) (offset : Z) (length : option Z)
    (n : Z) (self' : Message) :
  RelayServerMessage_load_from fuel variant options buffer offset length = Ok (n, self') ->
  exists tag hop_count link_address peer_address options',
    getitem (data_of buffer) offset = Ok tag /\
    self' = RelayServerMessage variant tag hop_count link_address peer_address options'.
Proof.
  unfold RelayServerMessage_load_from. cbv zeta. rewrite Z.add_0_r. intros H.
  bind_inv H as tag Htag. bind_inv H as hops Hhops.
  bind_inv H as link Hlink. bind_inv H as peer Hpeer.
  bind_inv H as loop Hloop. destruct loop as [options' my_offset].
  bind_inv H as valid Hvalid. injection H as _ <-.
  exists tag, hops, (Some link), (Some peer), options'. split; [exact Htag | reflexivity].
Qed.

(** *** IAID uniqueness *)

Lemma option_class_eqb_eq (a b : option OptionClass) :
  option_class_eqb a b = true <-> a = b.
Proof.
  destruct a as [x |], b as [y |]; simpl; try (split; [discriminate | congruence]).
  - destruct (OptionClass_eq_dec x y); split; congruence.
  - split; reflexivity.
Qed.

Lemma existsb_eqb_In (i : IAID) (l : list IAID) :
  existsb (IAID_eqb i) l = true <-> In i l.
Proof.
  rewrite existsb_exists. unfold IAID_eqb. split.
  - intros (x & Hin & Heq). destruct (IAID_eq_dec i x); [subst; assumption | discriminate].
  - intros Hin. exists i. split; [assumption |].
    destruct (IAID_eq_dec i i); [reflexivity | contradiction].
Qed.

(** The uniqueness loop passes exactly when no recorded pair repeats and
    none was in the dictionary already: options whose [iaid] is falsy are
    not recorded, so they are never compared. *)
Lemma check_iaids_Ok (self : Message) (options : list Option) (iaids : iaids_dict) :
  check_iaids self options iaids = Ok tt <->
  NoDup (recorded_iaids self options) /\
  forall k i, In (k, i) (recorded_iaids self options) -> ~ In i (iaids k).
Proof.
  revert iaids. induction options as [| opt rest IH]; intros iaids.
  - simpl. split; [intros _; split; [constructor | intros k i []] | reflexivity].
  - unfold recorded_iaids. simpl. fold (recorded_iaids self rest).
    unfold recorded_iaid. destruct (iaid opt) as [i |]; [| apply IH].
    destruct (IAID_truth i); cbv beta iota delta [negb]; [| apply IH].
    simpl app. destruct (existsb (IAID_eqb i) (iaids (get_class self opt))) eqn:Hseen.
    + apply existsb_eqb_In in Hseen. split.
      * destruct (get_class self opt); discriminate.
      * intros [_ Hfresh]. exfalso. apply (Hfresh _ _ (or_introl eq_refl)). exact Hseen.
    + assert (~ In i (iaids (get_class self opt))) as Hnew.
      { intros Hin. apply existsb_eqb_In in Hin. congruence. }
      rewrite IH. unfold iaids_append. split.
      * intros [Hnodup Hfresh]. split.
        -- constructor; [| exact Hnodup]. intros Hin. apply (Hfresh _ _ Hin).
           replace (option_class_eqb (get_class self opt) (get_class self opt)) with true
             by (symmetry; apply option_class_eqb_eq; reflexivity).
           apply in_or_app. right. left. reflexivity.
        -- intros k j [Heq | Hin].
           ++ injection Heq as <- <-. exact Hnew.
           ++ intros Hj. apply (Hfresh _ _ Hin).
              destruct (option_class_eqb (get_class self opt) k); [| exact Hj].
              apply in_or_app. left. exact Hj.
      * intros [Hnodup Hfresh]. inversion Hnodup as [| ? ? Hnotin Hnodup']; subst. split.
        -- exact Hnodup'.
        -- intros k j Hin Hj.
           destruct (option_class_eqb (get_class self opt) k) eqn:Hk.
           ++ apply option_class_eqb_eq in Hk. subst k.
              apply in_app_or in Hj. destruct Hj as [Hj | [<- | []]].
              ** apply (Hfresh _ _ (or_intror Hin)). exact Hj.
              ** contradiction.
           ++ apply (Hfresh _ _ (or_intror Hin)). exact Hj.
Qed.

(** Two options of one classified kind that carry the same [iaid],
    a truthy one, make the loop fail. *)
Lemma check_iaids_duplicate (self : Message) (before between after : list Option)
    (first second : Option) (value : IAID) :
  iaid first = Some value ->
  iaid second = Some value ->
  IAID_truth value = true ->
  get_class self first = get_class self second ->
  check_iaids self (before ++ first :: between ++ second :: after) (fun _ => []) <> Ok tt.
Proof.
  intros Hfirst Hsecond Hvalue Hclass H. apply check_iaids_Ok in H. destruct H as [Hnodup _].
  unfold recorded_iaids in Hnodup. rewrite flat_map_app in Hnodup. simpl in Hnodup.
  rewrite flat_map_app in Hnodup. simpl in Hnodup.
  apply NoDup_app_remove_l in Hnodup.
  unfold recorded_iaid at 1 in Hnodup. rewrite Hfirst in Hnodup.
  rewrite Hvalue in Hnodup. simpl in Hnodup.
  inversion Hnodup as [| ? ? Hnotin _]; subst. apply Hnotin.
  apply in_or_app. right. apply in_or_app. left.
  unfold recorded_iaid. rewrite Hsecond, Hvalue, Hclass. left. reflexivity.
Qed.




End Messages.

End MessagesFacts.

(** ** The messages over the sample catalogue *)

Module SampleFacts.

Import Parsing Messages Sample PyFacts MessagesFacts.

Lemma decode_encode (o : Opt) (option_type : Z) (option_data : bytes) :
  encode o = Ok (option_type, option_data) -> decode option_type option_data = Ok o.
Proof.
  destruct o as [i | interface_id | t d]; simpl; intros H.
  - bind_inv H as b Hb. injection H as <- <-. unfold decode. rewrite Z.eqb_refl.
    rewrite (int_of_byte_of_int _ _ Hb). reflexivity.
  - injection H as <- <-. reflexivity.
  - destruct (t =? OPTION_IA_NA) eqn:E3; [discriminate |].
    destruct (t =? OPTION_INTERFACE_ID) eqn:E18; [discriminate |].
    injection H as <- <-. unfold decode. rewrite E3, E18. reflexivity.
Qed.

(** Every option of the sample catalogue keeps the option contract. *)
Lemma sample_codec (opt : Option Opt) : option_codec (catalogue := catalogue) opt.
Proof.
  intros saved pre rest Hsave. simpl in Hsave.
  destruct opt as [inner | o]; [discriminate Hsave |].
  unfold Opt_save in Hsave. bind_inv Hsave as encoded Hencode.
  destruct encoded as [option_type option_data].
  bind_inv Hsave as tag Htag. bind_inv Hsave as option_len Hlen. injection Hsave as <-.
  split; [discriminate |].
  apply decode_encode in Hencode. apply int_of_byte_of_int in Htag, Hlen.
  assert (getitem (pre ++ (tag :: option_len :: option_data) ++ rest) (len pre)
          = Ok option_type) as Hg.
  { rewrite getitem_app_0. simpl app. rewrite getitem_head, Htag. reflexivity. }
  assert (getitem (pre ++ (tag :: option_len :: option_data) ++ rest) (len pre + 1)
          = Ok (len option_data)) as Hl.
  { rewrite getitem_app by lia. simpl app. change 1 with (1 + 0).
    rewrite getitem_tail, getitem_head, Hlen by lia. reflexivity. }
  assert (slice (pre ++ (tag :: option_len :: option_data) ++ rest) (len pre + 2)
            (len pre + 2 + len option_data) = option_data) as Hs.
  { replace (pre ++ (tag :: option_len :: option_data) ++ rest)
      with ((pre ++ [tag; option_len]) ++ option_data ++ rest)
      by (rewrite <- !app_assoc; reflexivity).
    replace (len pre + 2) with (len (pre ++ [tag; option_len]))
      by (rewrite len_app, !len_cons, len_nil; lia).
    apply slice_middle. }
  change (@Option_parse Opt catalogue) with Opt_parse. unfold Opt_parse.
  cbv beta iota delta [data_of].
  rewrite Hg. cbv beta iota delta [bind]. rewrite Hl. cbv beta iota delta [bind].
  rewrite Hs, Z.eqb_refl. cbv beta iota delta [negb]. rewrite Hencode.
  cbv beta iota delta [bind]. do 2 f_equal.
  rewrite !len_cons. lia.
Qed.

(** *** Round trip *)

(** C1, an instance: a Solicit message with two options is parsed back
    from a [bytes] object that holds what it saves. *)
Lemma parse_save_registered_witness :
  parse (catalogue := catalogue) 2
    (Bytes (data_of (Bytearray [x01; x0a; x0b; x0c; x03; x01; x05; x12; x02; xaa; xbb])))
    0
    (Some (len (data_of
                  (Bytearray [x01; x0a; x0b; x0c; x03; x01; x05; x12; x02; xaa; xbb]))))
  = Ok (len (data_of (Bytearray [x01; x0a; x0b; x0c; x03; x01; x05; x12; x02; xaa; xbb])),
        ClientServerMessage SolicitMessage (Bytes [x0a; x0b; x0c])
          [OtherOption (IANAOption 5); OtherOption (InterfaceIdOption [xaa; xbb])]).
Proof.
  apply (parse_save_registered
           (ClientServerMessage SolicitMessage (Bytes [x0a; x0b; x0c])
              [OtherOption (IANAOption 5); OtherOption (InterfaceIdOption [xaa; xbb])])
           (Bytearray [x01; x0a; x0b; x0c; x03; x01; x05; x12; x02; xaa; xbb]) 2%nat).
  - apply Forall_forall. intros opt _. apply sample_codec.
  - reflexivity.
  - vm_compute. reflexivity.
  - simpl. apply le_n.
Defined.

(** C1, where it fails: an [UnknownMessage] whose [message_type] is the
    tag of a registered class passes [validate] and is saved; [parse] on
    the [bytearray] that [save] returned raises, and [parse] on a [bytes]
    object that holds the saved bytes returns an instance of the registered
    class: another class than the one of the saved instance, which
    [__eq__] tells apart first of all. So no [parse] of what was saved
    returns the instance. *)
Lemma parse_save_UnknownMessage_counterexample :
  validate (catalogue := catalogue) (UnknownMessage 1 (Bytes [x00; x00; x00])) = Ok tt /\
  save (catalogue := catalogue) (UnknownMessage 1 (Bytes [x00; x00; x00]))
    = Ok (Bytearray [x01; x00; x00; x00]) /\
  parse (catalogue := catalogue) 1 (Bytearray [x01; x00; x00; x00]) 0 (Some 4)
    = Raise (ValueError "Transaction-id must be 3 bytes") /\
  parse (catalogue := catalogue) 1 (Bytes [x01; x00; x00; x00]) 0 (Some 4)
    = Ok (4, ClientServerMessage SolicitMessage (Bytes [x00; x00; x00]) []) /\
  type_of (Opt := Opt) (ClientServerMessage SolicitMessage (Bytes [x00; x00; x00]) [])
    <> type_of (Opt := Opt) (UnknownMessage 1 (Bytes [x00; x00; x00])) /\
  ~ (exists y,
        save (catalogue := catalogue) (UnknownMessage 1 (Bytes [x00; x00; x00]))
          = Ok y /\
        parse (catalogue := catalogue) 1 y 0 (Some (len (data_of y)))
          = Ok (len (data_of y), UnknownMessage 1 (Bytes [x00; x00; x00]))).
Proof.
  assert (save (catalogue := catalogue) (UnknownMessage 1 (Bytes [x00; x00; x00]))
          = Ok (Bytearray [x01; x00; x00; x00])) as Hsaved by (vm_compute; reflexivity).
  split; [vm_compute; reflexivity |].
  split; [exact Hsaved |].
  split; [vm_compute; reflexivity |].
  split; [vm_compute; reflexivity |].
  split; [discriminate |].
  intros (y & Hsave & Hparse). rewrite Hsaved in Hsave. injection Hsave as <-.
  vm_compute in Hparse. discriminate Hparse.
Qed.

(** *** Unknown tags *)

(** C3, on the code: the tag 14 is not registered, [determine_class]
    answers [UnknownMessage], and [parse] raises [TypeError], with a
    declared length and without one, when it calls the constructor without
    the [message_type] it requires; called on an instance without
    [length], [UnknownMessage.load_from] raises [TypeError] on
    [length - my_offset]. *)
Theorem parse_unknown_tag_raises :
  determine_class (Bytes [x0e; x01; x02]) 0 = Ok class_UnknownMessage /\
  parse (catalogue := catalogue) 1 (Bytes [x0e; x01; x02]) 0 (Some 3)
    = Raise (TypeError "__init__() missing 1 required positional argument: 'message_type'") /\
  parse (catalogue := catalogue) 1 (Bytes [x0e; x01; x02]) 0 None
    = Raise (TypeError "__init__() missing 1 required positional argument: 'message_type'") /\
  load_from (catalogue := catalogue) 1 (UnknownMessage 0 (Bytes [])) (Bytes [x0e; x01; x02])
    0 None
    = Raise (TypeError "unsupported operand type(s) for -: 'NoneType' and 'int'").
Proof. repeat split; vm_compute; reflexivity. Qed.

(** *** Declared length *)

(** C4, on the code: with a declared length of 6 over a buffer of 8
    bytes whose option ends at byte 8, [ClientServerMessage.load_from]
    returns 8; with a declared length of 36 over a buffer of 38 bytes,
    [RelayServerMessage.load_from] returns 38. Neither raises. *)
Theorem load_from_overruns_declared_length :
  load_from (catalogue := catalogue) 1
    (ClientServerMessage SolicitMessage (Bytes [x00; x00; x00]) [])
    (Bytes [x01; x0a; x0b; x0c; x08; x02; xaa; xbb]) 0 (Some 6)
  = Ok (8, ClientServerMessage SolicitMessage (Bytes [x0a; x0b; x0c])
             [OtherOption (UnknownOption 8 [xaa; xbb])]) /\
  load_from (catalogue := catalogue) 1
    (RelayServerMessage RelayForwardMessage MSG_RELAY_FORW 0 None None [])
    (Bytes ([x0c; x00] ++ repeat x00 32 ++ [x08; x02; xaa; xbb])) 0 (Some 36)
  = Ok (38, RelayServerMessage RelayForwardMessage MSG_RELAY_FORW 0
              (Some unspecified) (Some unspecified)
              [OtherOption (UnknownOption 8 [xaa; xbb])]).
Proof. split; vm_compute; reflexivity. Qed.

(** *** Occurrence constraints *)

(** C5, on the code: register [InterfaceIdOption] with a maximum of 0,
    then [IANAOption] with a maximum of 1. An identity association option
    is an instance of [IANAOption] and not of [InterfaceIdOption], and
    [get_element_class] returns [None] for it. *)
Theorem get_element_class_unrelated_cap :
  let _may_contain :=
    add_may_contain Kind_eq_dec
      (add_may_contain Kind_eq_dec [] class_InterfaceIdOption 0 0)
      class_IANAOption 0 1 in
  _may_contain = [(class_InterfaceIdOption, (0, 0)); (class_IANAOption, (0, 1))] /\
  Opt_isinstance (OtherOption (IANAOption 7)) class_InterfaceIdOption = false /\
  Opt_isinstance (OtherOption (IANAOption 7)) class_IANAOption = true /\
  get_element_class Opt_isinstance _may_contain (OtherOption (IANAOption 7)) = None.
Proof. repeat split. Qed.

(** C6, on the code: one element of a class registered with a minimum
    of 2 and a maximum of 5 makes [validate_contains] raise, and the
    message names 5 as the bound. *)
Theorem validate_contains_names_max_for_min :
  validate_contains Kind_eq_dec Opt_isinstance Kind_name Opt_type_name "SolicitMessage"
    [(class_IANAOption, (2, 5))] [OtherOption (IANAOption 7)]
  = Raise (ValueError "SolicitMessage must contain at least 5 IANAOptions").
Proof. vm_compute. reflexivity. Qed.

(** *** IAID uniqueness *)


(** *** Tag mismatch *)

(** C8, on the code: [load_from] of a [RelayForwardMessage] (tag 12) on
    a buffer that starts with the tag 13 returns, and leaves 13 as the
    [message_type] of the instance; [load_from] of a [SolicitMessage] on
    a buffer that starts with the tag 2 raises. *)
Theorem RelayServerMessage_load_from_overwrites_message_type :
  load_from (catalogue := catalogue) 0
    (RelayServerMessage RelayForwardMessage MSG_RELAY_FORW 0 None None [])
    (Bytes ([x0d; x01] ++ repeat x00 32)) 0 (Some 34)
  = Ok (34, RelayServerMessage RelayForwardMessage MSG_RELAY_REPL 1
              (Some unspecified) (Some unspecified) []) /\
  load_from (catalogue := catalogue) 0
    (ClientServerMessage SolicitMessage (Bytes [x00; x00; x00]) [])
    (Bytes [x02; x00; x00; x00]) 0 (Some 4)
  = Raise (ValueError "The provided buffer does not contain SolicitMessage data").
Proof. split; vm_compute; reflexivity. Qed.

(** *** Relay chains *)

(** C2, an instance: a relay-forward message that echoes an interface
    id, carries one more option and wraps a relay-forward message around
    a Solicit message. *)
Lemma wrap_response_relay_chain_witness :
  exists my_options,
    wrap_response (catalogue := catalogue)
      (RelayServerMessage RelayForwardMessage MSG_RELAY_FORW 1
         (Some loopback) (Some unspecified)
         [ OtherOption (InterfaceIdOption [x01]);
           OtherOption (UnknownOption 99 []);
           RelayMessageOption
             (RelayServerMessage RelayForwardMessage MSG_RELAY_FORW 0
                (Some unspecified) (Some unspecified)
                [ RelayMessageOption
                    (ClientServerMessage SolicitMessage (Bytes [x00; x00; x01]) []) ]) ])
      (ClientServerMessage ReplyMessage (Bytes [x00; x00; x01]) [])
    = Ok (RelayServerMessage RelayReplyMessage MSG_RELAY_REPL 1
            (Some loopback) (Some unspecified) my_options) /\
    wrapped_as_specified (ClientServerMessage ReplyMessage (Bytes [x00; x00; x01]) [])
      [ OtherOption (InterfaceIdOption [x01]);
        OtherOption (UnknownOption 99 []);
        RelayMessageOption
          (RelayServerMessage RelayForwardMessage MSG_RELAY_FORW 0
             (Some unspecified) (Some unspecified)
             [ RelayMessageOption
                 (ClientServerMessage SolicitMessage (Bytes [x00; x00; x01]) []) ]) ]
      my_options /\
    (is_ClientServerMessage
       (Opt := Opt) (ClientServerMessage ReplyMessage (Bytes [x00; x00; x01]) []) = true ->
     nesting_depth
       (RelayServerMessage RelayReplyMessage MSG_RELAY_REPL 1
          (Some loopback) (Some unspecified) my_options)
     = nesting_depth
         (RelayServerMessage RelayForwardMessage MSG_RELAY_FORW 1
            (Some loopback) (Some unspecified)
            [ OtherOption (InterfaceIdOption [x01]);
              OtherOption (UnknownOption 99 []);
              RelayMessageOption
                (RelayServerMessage RelayForwardMessage MSG_RELAY_FORW 0
                   (Some unspecified) (Some unspecified)
                   [ RelayMessageOption
                       (ClientServerMessage SolicitMessage (Bytes [x00; x00; x01]) []) ]) ])).
Proof.
  apply (wrap_response_relay_chain (catalogue := catalogue)). reflexivity.
Defined.

(** The nested relay scenario of the specification, evaluated. *)
Example wrap_response_nested :
  wrap_response (catalogue := catalogue)
    (RelayServerMessage RelayForwardMessage MSG_RELAY_FORW 1
       (Some loopback) (Some unspecified)
       [ OtherOption (InterfaceIdOption [x01]);
         OtherOption (UnknownOption 99 []);
         RelayMessageOption
           (RelayServerMessage RelayForwardMessage MSG_RELAY_FORW 0
              (Some unspecified) (Some unspecified)
              [ RelayMessageOption
                  (ClientServerMessage SolicitMessage (Bytes [x00; x00; x01]) []) ]) ])
    (ClientServerMessage ReplyMessage (Bytes [x00; x00; x01]) [])
  = Ok (RelayServerMessage RelayReplyMessage MSG_RELAY_REPL 1
          (Some loopback) (Some unspecified)
          [ OtherOption (InterfaceIdOption [x01]);
            RelayMessageOption
              (RelayServerMessage RelayReplyMessage MSG_RELAY_REPL 0
                 (Some unspecified) (Some unspecified)
                 [ RelayMessageOption
                     (ClientServerMessage ReplyMessage (Bytes [x00; x00; x01]) []) ]) ]).
Proof. reflexivity. Qed.

(** C9, an instance: a relay-forward message whose relay message option
    wraps an [UnknownMessage]. *)
Lemma wrap_response_invalid_embedding_witness :
  raises
    (wrap_response (catalogue := catalogue)
       (RelayServerMessage RelayForwardMessage MSG_RELAY_FORW 1
          (Some loopback) (Some unspecified)
          [ OtherOption (InterfaceIdOption [x01]);
            RelayMessageOption (UnknownMessage 14 (Bytes [x00])) ])
       (ClientServerMessage ReplyMessage (Bytes [x00; x00; x01]) [])).
Proof.
  apply (wrap_response_invalid_embedding (catalogue := catalogue)
           MSG_RELAY_FORW 1 (Some loopback) (Some unspecified)
           [ OtherOption (InterfaceIdOption [x01]);
             RelayMessageOption (UnknownMessage 14 (Bytes [x00])) ]
           (UnknownMessage 14 (Bytes [x00]))).
  - right. left. reflexivity.
  - reflexivity.
  - reflexivity.
  - reflexivity.
Defined.

(** *** Loading into an instance that holds options *)

(** C10, an instance: a Solicit message that holds one option loads a
    buffer with one option and ends up with both. *)
Lemma load_from_appends_options_witness :
  exists parsed,
    parse_options (catalogue := catalogue) 1
      (Bytes [x01; x0a; x0b; x0c; x08; x02; xaa; xbb]) 0
      (or_else (Some 8)
         (len (data_of (Bytes [x01; x0a; x0b; x0c; x08; x02; xaa; xbb])) - 0)) []
      (header_length
         (ClientServerMessage SolicitMessage (Bytes [x00; x00; x00]) [OtherOption (IANAOption 1)]))
    = Ok (parsed, 8) /\
    options_of
      (ClientServerMessage SolicitMessage (Bytes [x0a; x0b; x0c])
         [OtherOption (IANAOption 1); OtherOption (UnknownOption 8 [xaa; xbb])])
    = options_of
        (ClientServerMessage SolicitMessage (Bytes [x00; x00; x00]) [OtherOption (IANAOption 1)])
      ++ parsed /\
    (options_of
       (ClientServerMessage SolicitMessage (Bytes [x0a; x0b; x0c])
          [OtherOption (IANAOption 1); OtherOption (UnknownOption 8 [xaa; xbb])])
     = parsed <->
     options_of
       (ClientServerMessage SolicitMessage (Bytes [x00; x00; x00]) [OtherOption (IANAOption 1)])
     = []).
Proof.
  apply (load_from_appends_options (catalogue := catalogue) 1
           (ClientServerMessage SolicitMessage (Bytes [x00; x00; x00]) [OtherOption (IANAOption 1)])
           (ClientServerMessage SolicitMessage (Bytes [x0a; x0b; x0c])
              [OtherOption (IANAOption 1); OtherOption (UnknownOption 8 [xaa; xbb])])
           (Bytes [x01; x0a; x0b; x0c; x08; x02; xaa; xbb]) 0 (Some 8) 8).
  - discriminate.
  - vm_compute. reflexivity.
Defined.

End SampleFacts.

(** * Further properties *)

(** ** Classification and containment *)

Module ParsingProperties.

Import Parsing PyFacts ParsingFacts.

Section StructuredElement.

Context {Class : Type} (Class_eq_dec : forall a b : Class, {a = b} + {a <> b}).
Context {Element : Type} (isinstance : Element -> Class -> bool).
Context (class_name : Class -> string) (type_name : Element -> string).

Local Abbreviation items := (may_contain_items Class).

Lemma get_element_class_None (table : items) (element : Element) :
  get_element_class isinstance table element = None <->
  Forall (passed isinstance element) table \/
  exists before klass min_occurrence max_occurrence after,
    table = before ++ (klass, (min_occurrence, max_occurrence)) :: after /\
    Forall (passed isinstance element) before /\
    max_occurrence < 1.
Proof.
  induction table as [| [k [mn mx]] table IH]; simpl.
  - split; [intros _; left; constructor | reflexivity].
  - destruct (Z.ltb_spec mx 1) as [Hmx | Hmx].
    + split; [intros _ | reflexivity]. right. exists [], k, mn, mx, table. auto.
    + destruct (isinstance element k) eqn:Ei.
      * split; [discriminate |]. intros [Hall | (before & k' & mn' & mx' & after & E & Hb & Hm)].
        -- inversion Hall as [| ? ? [_ Hp] _]; subst. simpl in Hp. congruence.
        -- destruct before as [| b before]; simpl in E; inversion E; subst; [lia |].
           inversion Hb as [| ? ? [_ Hp] _]; subst. simpl in Hp. congruence.
      * rewrite IH. split.
        -- intros [Hall | (before & k' & mn' & mx' & after & E & Hb & Hm)].
           ++ left. constructor; [split; assumption | assumption].
           ++ right. exists ((k, (mn, mx)) :: before), k', mn', mx', after. subst table.
              repeat split; auto. constructor; [split; assumption | assumption].
        -- intros [Hall | (before & k' & mn' & mx' & after & E & Hb & Hm)].
           ++ left. inversion Hall; assumption.
           ++ destruct before as [| b before]; simpl in E; inversion E; subst; [lia |].
              right. exists before, k', mn', mx', after. inversion Hb; subst. auto.
Qed.

(** X1: what [get_element_class] returns is decided by the first entry
    of [_may_contain.items()] that is capped below 1 or is a class of the
    element: that class when the entry is a class of the element and is
    not capped, [None] when the entry is capped, and [None] when there is
    no such entry. *)
Theorem get_element_class_first_decisive (table : items) (element : Element) :
  (forall klass,
      get_element_class isinstance table element = Some klass <->
      exists before min_occurrence max_occurrence after,
        table = before ++ (klass, (min_occurrence, max_occurrence)) :: after /\
        Forall (passed isinstance element) before /\
        1 <= max_occurrence /\ isinstance element klass = true) /\
  (get_element_class isinstance table element = None <->
   Forall (passed isinstance element) table \/
   exists before klass min_occurrence max_occurrence after,
     table = before ++ (klass, (min_occurrence, max_occurrence)) :: after /\
     Forall (passed isinstance element) before /\
     max_occurrence < 1).
Proof.
  split.
  - intros klass. apply get_element_class_Some.
  - apply get_element_class_None.
Qed.

(** X2: [validate_contains] passes exactly when every element
    classifies and the number of elements classified as each registered
    class lies within the bounds of that class, and raises exactly when
    not. *)
Theorem validate_contains_decides (self_name : string) (table : items)
    (elements : list Element) :
  let within :=
    Forall (fun element => get_element_class isinstance table element <> None) elements /\
    Forall (fun entry =>
              fst (snd entry)
              <= occurrences Class_eq_dec isinstance table elements (fst entry)
              <= snd (snd entry)) table in
  (validate_contains Class_eq_dec isinstance class_name type_name self_name table elements
   = Ok tt <-> within) /\
  (raises (validate_contains Class_eq_dec isinstance class_name type_name self_name table
             elements) <-> ~ within).
Proof.
  intros within. subst within. split; [apply validate_contains_Ok |]. split.
  - intros [e He] Hwithin.
    apply (validate_contains_Ok Class_eq_dec isinstance class_name type_name self_name)
      in Hwithin.
    congruence.
  - intros Hnot.
    destruct (validate_contains_total Class_eq_dec isinstance class_name type_name self_name
                table elements) as [Hok | Hraise]; [| exact Hraise].
    contradiction Hnot. apply validate_contains_Ok in Hok. exact Hok.
Qed.

(** X3: with no elements, [validate_contains] passes exactly when no
    registered class asks for at least one element (and none has a
    negative maximum). *)
Theorem validate_contains_empty (self_name : string) (table : items) :
  validate_contains Class_eq_dec isinstance class_name type_name self_name table [] = Ok tt
  <-> Forall (fun entry => fst (snd entry) <= 0 <= snd (snd entry)) table.
Proof.
  rewrite validate_contains_Ok. split.
  - intros [_ H]. exact H.
  - intros H. split; [constructor | exact H].
Qed.

Lemma count_occurrence_unclassified (self_name : string) (table : items)
    (before after : list Element) (element : Element) (counters : Counter Class) :
  Forall (fun e => get_element_class isinstance table e <> None) before ->
  get_element_class isinstance table element = None ->
  count_occurrence Class_eq_dec isinstance type_name self_name table
    (before ++ element :: after) counters
  = Raise (ValueError (self_name ++ " cannot contain " ++ type_name element)%string).
Proof.
  intros Hbefore Hnone. revert counters.
  induction Hbefore as [| e before He _ IH]; intros counters; simpl.
  - rewrite Hnone. reflexivity.
  - destruct (get_element_class isinstance table e); [apply IH | congruence].
Qed.

(** X4: the first element that does not classify decides the error:
    [validate_contains] raises "cannot contain", naming the container and
    the class of that element, whatever the counts of the other
    elements. *)
Theorem validate_contains_first_unclassified (self_name : string) (table : items)
    (before after : list Element) (element : Element) :
  Forall (fun e => get_element_class isinstance table e <> None) before ->
  get_element_class isinstance table element = None ->
  validate_contains Class_eq_dec isinstance class_name type_name self_name table
    (before ++ element :: after)
  = Raise (ValueError (self_name ++ " cannot contain " ++ type_name element)%string).
Proof.
  intros Hbefore Hnone. unfold validate_contains.
  rewrite (count_occurrence_unclassified self_name table before after element _
             Hbefore Hnone).
  reflexivity.
Qed.

(** X5: every element of a list that [validate_contains] accepts
    satisfies [may_contain]. *)
Theorem validate_contains_may_contain (self_name : string) (table : items)
    (elements : list Element) :
  validate_contains Class_eq_dec isinstance class_name type_name self_name table elements
  = Ok tt ->
  Forall (fun element => may_contain isinstance table element = true) elements.
Proof.
  intros H. apply validate_contains_Ok in H. destruct H as [Hall _].
  eapply Forall_impl; [| exact Hall]. intros element He. cbv beta in He.
  unfold may_contain.
  destruct (get_element_class isinstance table element); [reflexivity | congruence].
Qed.

(** X6: [add_may_contain] enters the class with the given bounds: a
    class already in the mapping keeps its place, a new class comes last,
    and the entries of the other classes stay as they are. *)
Theorem add_may_contain_entries (table : items) (klass : Class)
    (min_occurrence max_occurrence : Z) :
  let table' := add_may_contain Class_eq_dec table klass min_occurrence max_occurrence in
  In (klass, (min_occurrence, max_occurrence)) table' /\
  (map fst table' = map fst table \/ map fst table' = map fst table ++ [klass]) /\
  (In klass (map fst table) -> map fst table' = map fst table) /\
  (forall other bounds, other <> klass -> In (other, bounds) table' <-> In (other, bounds) table).
Proof.
  cbv zeta. induction table as [| [k bounds] table IH]; simpl.
  - split; [left; reflexivity |]. split; [right; reflexivity |]. split; [intros [] |].
    intros other b Hother. split; [intros [Heq | []]; congruence | intros []].
  - destruct IH as (Hin & Hkeys & Hkeep & Hothers).
    destruct (Class_eq_dec k klass) as [-> | Hneq]; simpl.
    + split; [left; reflexivity |]. split; [left; reflexivity |].
      split; [intros _; reflexivity |].
      intros other b Hother.
      split; (intros [Heq | Hrest]; [congruence | right; exact Hrest]).
    + split; [right; exact Hin |]. split.
      { destruct Hkeys as [E | E]; rewrite E; [left | right]; reflexivity. }
      split.
      { intros [Heq | Hmem]; [contradiction | rewrite (Hkeep Hmem); reflexivity]. }
      intros other b Hother.
      split; (intros [Heq | Hrest];
              [left; exact Heq | right; apply (Hothers other b Hother); exact Hrest]).
Qed.

(** X7: registering a class and classifying compose: when no entry of
    the mapping is capped or is a class of the element, an element of the
    newly registered class classifies as that class if its maximum is at
    least 1, and is not permitted otherwise. *)
Theorem add_may_contain_then_classify (table : items) (klass : Class)
    (min_occurrence max_occurrence : Z) (element : Element) :
  Forall (passed isinstance element) table ->
  isinstance element klass = true ->
  get_element_class isinstance
    (add_may_contain Class_eq_dec table klass min_occurrence max_occurrence) element
  = if max_occurrence <? 1 then None else Some klass.
Proof.
  intros Hall Hinst. induction Hall as [| [k [mn mx]] table [Hp Hi] _ IH]; simpl.
  - destruct (max_occurrence <? 1); [reflexivity |]. rewrite Hinst. reflexivity.
  - simpl in Hp, Hi. destruct (Class_eq_dec k klass) as [-> | Hneq]; [congruence |].
    simpl. destruct (Z.ltb_spec mx 1); [lia |]. rewrite Hi. exact IH.
Qed.

End StructuredElement.

End ParsingProperties.

(** ** Dispatch, loading and saving *)

Module MessagesProperties.

Import Parsing Messages Methods PyFacts MessagesFacts.

Lemma slice_len {A : Type} (buffer : list A) (lo hi : Z) :
  0 <= lo -> 0 <= hi ->
  len (slice buffer lo hi) = Z.max 0 (Z.min hi (len buffer) - Z.min lo (len buffer)).
Proof.
  intros Hlo Hhi. unfold slice, slice_bound.
  replace (lo <? 0) with false by (symmetry; apply Z.ltb_ge; lia).
  replace (hi <? 0) with false by (symmetry; apply Z.ltb_ge; lia).
  unfold len. rewrite length_firstn, length_skipn. lia.
Qed.

Lemma getitem_out_of_range (buffer : bytes) (i : Z) :
  len buffer <= i \/ i < - len buffer ->
  getitem buffer i = Raise (IndexError "index out of range").
Proof.
  intros Hout. unfold getitem. pose proof (len_nonneg buffer) as Hlen.
  destruct (Z.ltb_spec i 0) as [Hneg | Hpos].
  - replace (0 <=? i + len buffer) with false by (symmetry; apply Z.leb_gt; lia).
    reflexivity.
  - replace (i <? len buffer) with false by (symmetry; apply Z.ltb_ge; lia).
    rewrite andb_false_r. reflexivity.
Qed.

Lemma getitem_in_range (buffer : bytes) (i : Z) :
  0 <= i < len buffer -> exists tag, getitem buffer i = Ok tag.
Proof.
  intros Hin. unfold getitem.
  replace (i <? 0) with false by (symmetry; apply Z.ltb_ge; lia).
  replace (0 <=? i) with true by (symmetry; apply Z.leb_le; lia).
  replace (i <? len buffer) with true by (symmetry; apply Z.ltb_lt; lia).
  simpl. destruct (nth_error buffer (Z.to_nat i)) as [b |] eqn:E; [eexists; reflexivity |].
  apply nth_error_None in E. unfold len in Hin. lia.
Qed.

(** The registry holds the thirteen classes under their tags, and
    nothing else. *)
Lemma registry_get_inv (tag : Z) (klass : MessageClass) :
  registry_get tag class_UnknownMessage = klass ->
  (klass = class_UnknownMessage /\ (tag < 1 \/ 13 < tag)) \/
  (klass <> class_UnknownMessage /\ 1 <= tag <= 13 /\ class_message_type klass = tag).
Proof.
  unfold registry_get.
  cbv [registry fold_left register class_message_type ClientServer_message_type
         RelayServer_message_type find fst snd
         MSG_SOLICIT MSG_ADVERTISE MSG_REQUEST MSG_CONFIRM MSG_RENEW MSG_REBIND MSG_REPLY
         MSG_RELEASE MSG_DECLINE MSG_RECONFIGURE MSG_INFORMATION_REQUEST MSG_RELAY_FORW
         MSG_RELAY_REPL].
  repeat match goal with
         | |- context [?a =? tag] =>
             destruct (Z.eqb_spec a tag);
             [intros <-; right; subst tag; repeat split; (discriminate || lia || reflexivity) |]
         end.
  intros <-. left. split; [reflexivity | lia].
Qed.

Section Messages.

Context {Opt : Type} {catalogue : OptionCatalogue Opt}.

Local Abbreviation Message := (Message Opt).
Local Abbreviation Option := (Option Opt).

(** X8: [determine_class] answers the class registered under the byte
    at [offset]: for a byte from 1 to 13 a class other than
    [UnknownMessage], whose [message_type] is that byte; for any other
    byte [UnknownMessage]. *)
Theorem determine_class_dispatch (buffer : byteslike) (offset tag : Z) :
  getitem (data_of buffer) offset = Ok tag ->
  exists klass,
    determine_class buffer offset = Ok klass /\
    ((1 <= tag <= 13 /\ klass <> class_UnknownMessage /\ class_message_type klass = tag) \/
     ((tag < 1 \/ 13 < tag) /\ klass = class_UnknownMessage)).
Proof.
  intros Htag. unfold determine_class. rewrite Htag. simpl bind.
  eexists. split; [reflexivity |].
  destruct (registry_get_inv tag _ eq_refl) as [[Hk Hout] | (Hk & Hin & Hclass)].
  - right. split; assumption.
  - left. repeat split; assumption || lia.
Qed.

(** X9: on an empty buffer, and whenever [offset] lies outside the
    buffer, [parse] raises [IndexError] before anything is constructed. *)
Theorem parse_outside_buffer (fuel : nat) (buffer : byteslike) (offset : Z)
    (length : option Z) :
  len (data_of buffer) <= offset \/ offset < - len (data_of buffer) ->
  parse fuel buffer offset length = Raise (IndexError "index out of range").
Proof.
  intros Hout. unfold parse, determine_class.
  rewrite (getitem_out_of_range (data_of buffer) offset Hout). reflexivity.
Qed.

Lemma IPv6Address_new_Ok (address : byteslike) (a : IPv6Address) :
  IPv6Address_new address = Ok a ->
  address = Bytes (packed a) /\ len (packed a) = 16.
Proof.
  unfold IPv6Address_new. destruct address as [address | address]; [| discriminate].
  destruct (bool_dec (Nat.eqb (List.length address) 16) true) as [H | H]; [| discriminate].
  intros Heq. injection Heq as <-. split; [reflexivity |].
  pose proof (proj1 (Nat.eqb_eq _ _) H) as Hlen.
  unfold packed, len. simpl. rewrite Hlen. reflexivity.
Qed.

Lemma sliced_Bytes (buffer : byteslike) (lo hi : Z) (data : bytes) :
  sliced buffer lo hi = Bytes data ->
  is_bytes buffer = true /\ data = slice (data_of buffer) lo hi.
Proof.
  destruct buffer as [d | d]; simpl; intros H; [| discriminate H].
  injection H as <-. split; reflexivity.
Qed.

(** X10: what [parse] returns has been validated, is an instance of the
    class registered under the byte at [offset], a byte from 1 to 13, and
    carries that byte as its [message_type]; and [parse] returns from a
    [bytes] buffer only. *)
Theorem parse_returns_valid_registered (fuel : nat) (buffer : byteslike) (offset : Z)
    (length : option Z) (n : Z) (m : Message) :
  parse fuel buffer offset length = Ok (n, m) ->
  exists tag,
    getitem (data_of buffer) offset = Ok tag /\
    1 <= tag <= 13 /\
    class_message_type (type_of m) = tag /\
    registered_instance m = true /\
    validate m = Ok tt /\
    is_bytes buffer = true.
Proof.
  intros H. unfold parse, determine_class in H.
  bind_inv H as klass Hklass. bind_inv Hklass as tag Htag. injection Hklass as Hklass.
  bind_inv H as element Helement. bind_inv H as loaded Hload.
  destruct loaded as [n' m']. injection H as <- <-.
  exists tag. split; [exact Htag |].
  destruct (registry_get_inv tag klass Hklass) as [[-> _] | (Hk & Hin & Hclass)];
    [discriminate Helement |].
  destruct klass as [| variant | variant]; [contradiction Hk; reflexivity | |];
    simpl in Helement; injection Helement as <-; simpl in Hload.
  - unfold ClientServerMessage_load_from in Hload. cbv zeta in Hload.
    bind_inv Hload as tag' Htag'. destruct (negb _); [discriminate |].
    bind_inv Hload as loop Hloop. destruct loop as [options my_offset].
    bind_inv Hload as valid Hvalid. destruct valid. injection Hload as <- <-.
    split; [exact Hin |]. split; [exact Hclass |]. split; [reflexivity |].
    split; [exact Hvalid |].
    destruct (validate_transaction_id _ _ _ Hvalid) as (tid & Htid & _).
    apply sliced_Bytes in Htid. apply Htid.
  - unfold RelayServerMessage_load_from in Hload. cbv zeta in Hload.
    bind_inv Hload as tag' Htag'. rewrite Z.add_0_r, Htag in Htag'. injection Htag' as <-.
    bind_inv Hload as hops Hhops.
    bind_inv Hload as link Hlink. bind_inv Hload as peer Hpeer.
    bind_inv Hload as loop Hloop. destruct loop as [options my_offset].
    bind_inv Hload as valid Hvalid. destruct valid. injection Hload as <- <-.
    split; [exact Hin |]. split; [exact Hclass |].
    split; [simpl in Hclass; simpl; rewrite Hclass; apply Z.eqb_refl |].
    split; [exact Hvalid |].
    apply IPv6Address_new_Ok in Hlink. destruct Hlink as [Hlink _].
    apply sliced_Bytes in Hlink. apply Hlink.
Qed.

(** *** Declared lengths *)

Lemma load_from_or_else (fuel : nat) (self : Message) (buffer : byteslike) (offset : Z)
    (length length' : option Z) :
  or_else length (len (data_of buffer) - offset)
  = or_else length' (len (data_of buffer) - offset) ->
  type_of self <> class_UnknownMessage ->
  load_from fuel self buffer offset length = load_from fuel self buffer offset length'.
Proof.
  intros Hl Hclass.
  destruct self as [t d | variant tid options | variant t hops link peer options];
    [contradiction Hclass; reflexivity | |]; unfold load_from.
  - unfold ClientServerMessage_load_from. cbv zeta. rewrite Hl. reflexivity.
  - unfold RelayServerMessage_load_from. cbv zeta. rewrite Hl. reflexivity.
Qed.

Lemma parse_or_else (fuel : nat) (buffer : byteslike) (offset : Z)
    (length length' : option Z) :
  or_else length (len (data_of buffer) - offset)
  = or_else length' (len (data_of buffer) - offset) ->
  parse fuel buffer offset length = parse fuel buffer offset length'.
Proof.
  intros Hl. unfold parse.
  destruct (determine_class buffer offset) as [klass | e |];
    cbv beta iota delta [bind]; try reflexivity.
  destruct klass as [| variant | variant]; cbv beta iota delta [bind new];
    try reflexivity.
  - rewrite (load_from_or_else fuel _ buffer offset length length' Hl);
      [reflexivity | discriminate].
  - rewrite (load_from_or_else fuel _ buffer offset length length' Hl);
      [reflexivity | discriminate].
Qed.

(** X11: [parse] and [load_from] use [length] only through
    [length or (len(buffer) - offset)]: two lengths that give the same
    value there give the same outcome. So a declared length of 0 means
    "to the end of the buffer", as no length does. *)
Theorem parse_length_or_remaining (fuel : nat) (buffer : byteslike) (offset : Z)
    (length length' : option Z) :
  or_else length (len (data_of buffer) - offset)
  = or_else length' (len (data_of buffer) - offset) ->
  parse fuel buffer offset length = parse fuel buffer offset length' /\
  parse fuel buffer offset (Some 0) = parse fuel buffer offset None /\
  forall self : Message,
    type_of self <> class_UnknownMessage ->
    load_from fuel self buffer offset length = load_from fuel self buffer offset length'.
Proof.
  intros Hsame.
  split; [apply parse_or_else; exact Hsame |].
  split; [apply parse_or_else; reflexivity |].
  intros self Hclass. apply load_from_or_else; assumption.
Qed.

(** The loop returns where it started, or past where it started and at
    or past [max_length]. *)
Lemma parse_options_from (fuel : nat) (buffer : byteslike) (offset max_length : Z)
    (existing parsed : list Option) (my_offset n : Z) :
  parse_options fuel buffer offset max_length existing my_offset = Ok (parsed, n) ->
  my_offset <= n /\ max_length <= n.
Proof.
  intros H. pose proof (parse_options_reaches _ _ _ _ _ _ _ _ H) as Hreach.
  split; [| exact Hreach].
  destruct fuel as [| fuel]; simpl in H;
    destruct (Z.gtb_spec max_length my_offset) as [Hgt | Hle]; try discriminate;
    try (injection H as _ <-; lia); lia.
Qed.

(** X12: a [load_from] that returns has read a whole fixed header: the
    buffer holds at least 4 bytes from [offset] for a client-server
    message and 34 for a relay message, and what is reported as consumed
    is at least that header and at least the length in force. *)
Theorem load_from_reads_whole_header (fuel : nat) (self self' : Message)
    (buffer : byteslike) (offset : Z) (length : option Z) (n : Z) :
  0 <= offset ->
  type_of self <> class_UnknownMessage ->
  load_from fuel self buffer offset length = Ok (n, self') ->
  offset + header_length self <= len (data_of buffer) /\
  header_length self <= n /\
  or_else length (len (data_of buffer) - offset) <= n.
Proof.
  intros Hoffset Hclass H. pose proof (len_nonneg (data_of buffer)) as Hlen.
  destruct self as [t d | variant tid options | variant t hops link peer options];
    [contradiction Hclass; reflexivity | |]; unfold load_from in H; unfold header_length.
  - unfold ClientServerMessage_load_from in H. cbv zeta in H.
    bind_inv H as tag Htag. destruct (negb _); [discriminate |].
    bind_inv H as loop Hloop. destruct loop as [options' my_offset].
    bind_inv H as valid Hvalid. injection H as <- _.
    apply parse_options_from in Hloop. destruct valid.
    destruct (validate_transaction_id _ _ _ Hvalid) as (loaded & Hloaded & Hthree).
    apply sliced_Bytes in Hloaded. destruct Hloaded as [_ ->].
    rewrite slice_len in Hthree by lia. lia.
  - unfold RelayServerMessage_load_from in H. cbv zeta in H.
    bind_inv H as tag Htag. bind_inv H as hop Hhop.
    bind_inv H as link' Hlink. bind_inv H as peer' Hpeer.
    bind_inv H as loop Hloop. destruct loop as [options' my_offset].
    bind_inv H as valid Hvalid. injection H as <- _.
    apply parse_options_from in Hloop.
    apply IPv6Address_new_Ok in Hpeer. destruct Hpeer as [Hpeer Hsixteen].
    apply sliced_Bytes in Hpeer. destruct Hpeer as [_ Hpeer]. rewrite Hpeer in Hsixteen.
    rewrite slice_len in Hsixteen by lia. lia.
Qed.

(** X13: [ClientServerMessage.load_from] on a buffer whose byte at
    [offset] is not the tag of the class raises [ValueError], naming the
    class, whatever the instance holds and whatever follows in the
    buffer. *)
Theorem ClientServerMessage_load_from_wrong_tag (fuel : nat) (variant : ClientServerVariant)
    (transaction_id : byteslike) (options : list Option) (buffer : byteslike) (offset : Z)
    (length : option Z) (tag : Z) :
  getitem (data_of buffer) offset = Ok tag ->
  tag <> ClientServer_message_type variant ->
  load_from fuel (ClientServerMessage variant transaction_id options) buffer offset length
  = Raise (ValueError ("The provided buffer does not contain " ++ ClientServer_name variant
                         ++ " data")%string).
Proof.
  intros Htag Hwrong. unfold load_from, ClientServerMessage_load_from. cbv zeta.
  rewrite Z.add_0_r, Htag. cbv beta iota delta [bind].
  apply Z.eqb_neq in Hwrong. rewrite Hwrong. reflexivity.
Qed.

(** *** Unknown messages *)

(** X14: with a declared length and a [bytes] buffer,
    [UnknownMessage.load_from] keeps the byte at [offset] as
    [message_type] and the bytes after it, up to the declared length, as
    [message_data]; it reports the declared length as consumed also when
    the buffer ends before it. On a [bytearray] that holds the same bytes
    it raises, for [message_data] is then no [bytes] object. *)
Theorem UnknownMessage_load_from_declared (fuel : nat) (self : Message) (buffer : bytes)
    (offset length : Z) :
  type_of self = class_UnknownMessage ->
  0 <= offset < len buffer ->
  0 <= length ->
  exists tag data,
    getitem buffer offset = Ok tag /\
    data = slice buffer (offset + 1) (offset + length) /\
    len data = Z.max 0 (Z.min (offset + length) (len buffer) - (offset + 1)) /\
    load_from fuel self (Bytes buffer) offset (Some length)
    = Ok (length, UnknownMessage tag (Bytes data)) /\
    load_from fuel self (Bytearray buffer) offset (Some length)
    = Raise (ValueError "Message data must consist of bytes").
Proof.
  intros Hclass Hoffset Hlength.
  destruct self as [t d | variant tid options | variant t hops link peer options];
    try discriminate Hclass.
  destruct (getitem_in_range buffer offset Hoffset) as [tag Htag].
  exists tag, (slice buffer (offset + 1) (offset + length)).
  split; [exact Htag |]. split; [reflexivity |]. split; [| split].
  - rewrite slice_len by lia. lia.
  - unfold load_from.
    rewrite (UnknownMessage_load_from_Some (Bytes buffer) offset length tag Htag).
    reflexivity.
  - unfold load_from.
    rewrite (UnknownMessage_load_from_Some (Bytearray buffer) offset length tag Htag).
    reflexivity.
Qed.

(** X15: what an [UnknownMessage] saves is a [bytearray] that holds
    its [message_type] byte followed by its [message_data]; [load_from] on
    an instance reads these bytes back out of a [bytes] buffer, at any
    offset of a buffer that may go on, when the saved length is declared;
    on the [bytearray] that [save] returned it raises. *)
Theorem UnknownMessage_save_load_from (fuel : nat) (self : Message)
    (message_type : Z) (message_data saved : byteslike) (pre rest : bytes) :
  type_of self = class_UnknownMessage ->
  save (UnknownMessage message_type message_data) = Ok saved ->
  (exists tag,
      byte_of_int message_type = Ok tag /\
      saved = Bytearray (tag :: data_of message_data)) /\
  load_from fuel self (Bytes (pre ++ data_of saved ++ rest)) (len pre)
    (Some (len (data_of saved)))
  = Ok (len (data_of saved), UnknownMessage message_type message_data) /\
  load_from fuel self saved 0 (Some (len (data_of saved)))
  = Raise (ValueError "Message data must consist of bytes").
Proof.
  intros Hclass Hsave.
  destruct self as [t d | variant tid options | variant t hops link peer options];
    try discriminate Hclass.
  unfold save in Hsave. bind_inv Hsave as valid Hvalid. bind_inv Hsave as tag Htag.
  injection Hsave as <-. simpl app at 1.
  assert (exists data, message_data = Bytes data) as [data ->].
  { unfold validate in Hvalid. destruct (negb _); [discriminate Hvalid |].
    destruct message_data as [data | data]; [eauto | discriminate Hvalid]. }
  cbv beta iota delta [data_of].
  split; [exists tag; split; [exact Htag | reflexivity] |].
  unfold load_from. split.
  - assert (getitem (data_of (Bytes (pre ++ (tag :: data) ++ rest))) (len pre)
            = Ok message_type) as Hg.
    { cbv beta iota delta [data_of]. rewrite getitem_app_0. simpl app.
      rewrite getitem_head. rewrite (int_of_byte_of_int _ _ Htag). reflexivity. }
    rewrite (UnknownMessage_load_from_Some _ _ _ _ Hg).
    cbv beta iota delta [is_bytes sliced]. do 4 f_equal.
    replace (pre ++ (tag :: data) ++ rest)
      with ((pre ++ [tag]) ++ data ++ rest)
      by (rewrite <- !app_assoc; reflexivity).
    replace (len pre + 1) with (len (pre ++ [tag]))
      by (rewrite len_app, len_cons, len_nil; lia).
    replace (len pre + len (tag :: data)) with (len (pre ++ [tag]) + len data)
      by (rewrite len_app, !len_cons, len_nil; lia).
    apply slice_middle.
  - assert (getitem (data_of (Bytearray (tag :: data))) 0 = Ok message_type) as Hg.
    { cbv beta iota delta [data_of]. rewrite getitem_head.
      rewrite (int_of_byte_of_int _ _ Htag). reflexivity. }
    rewrite (UnknownMessage_load_from_Some _ _ _ _ Hg). reflexivity.
Qed.

(** *** The wire format *)

(** X16: what a client-server message saves is a [bytearray] that
    holds one byte, the tag of its class, the three bytes of the
    transaction id and what each option saves, in order: 4 bytes and the
    options. *)
Theorem save_ClientServerMessage_layout (variant : ClientServerVariant)
    (transaction_id : byteslike) (options : list Option) (saved : byteslike) :
  save (ClientServerMessage variant transaction_id options) = Ok saved ->
  exists tag encodings,
    int_of_byte tag = ClientServer_message_type variant /\
    is_bytes transaction_id = true /\
    len (data_of transaction_id) = 3 /\
    Forall2 (fun opt encoding => Option_save opt = Ok encoding) options encodings /\
    saved = Bytearray (tag :: data_of transaction_id ++ List.concat encodings) /\
    len (data_of saved) = 4 + len (List.concat encodings).
Proof.
  intros H. apply save_ClientServerMessage_Ok in H.
  destruct H as (_ & tid & tag & encodings & -> & Htid & Htag & Hall & ->).
  exists tag, encodings. split; [apply int_of_byte_of_int; exact Htag |].
  cbv beta iota delta [data_of is_bytes].
  repeat split; try assumption.
  simpl app. rewrite len_cons, len_app, Htid. lia.
Qed.

Lemma check_address_Ok (what : string) (address : option IPv6Address) :
  check_address what address = Ok tt ->
  exists a, address = Some a /\ is_multicast a = false.
Proof.
  unfold check_address. destruct address as [a |]; [| discriminate].
  destruct (is_multicast a) eqn:E; [discriminate |]. intros _. exists a. auto.
Qed.

(** X17: a relay message is saved only with a hop count from 0 to 255
    and two addresses that are not multicast; what it saves is a
    [bytearray] that holds the byte
    of its [message_type], the hop count, the 16 bytes of each address and
    what each option saves, in order: 34 bytes and the options. *)
Theorem save_RelayServerMessage_layout (variant : RelayServerVariant)
    (message_type hop_count : Z) (link_address peer_address : option IPv6Address)
    (options : list Option) (saved : byteslike) :
  save (RelayServerMessage variant message_type hop_count link_address peer_address options)
  = Ok saved ->
  exists tag hops link peer encodings,
    int_of_byte tag = message_type /\
    int_of_byte hops = hop_count /\
    0 <= hop_count < 256 /\
    link_address = Some link /\ is_multicast link = false /\
    peer_address = Some peer /\ is_multicast peer = false /\
    Forall2 (fun opt encoding => Option_save opt = Ok encoding) options encodings /\
    saved = Bytearray (tag :: hops :: packed link ++ packed peer
                         ++ List.concat encodings) /\
    len (data_of saved) = 34 + len (List.concat encodings).
Proof.
  intros H. apply save_RelayServerMessage_Ok in H.
  destruct H as (Hvalid & tag & hops & link & peer & encodings & Htag & Hhops
                 & -> & -> & Hall & ->).
  exists tag, hops, link, peer, encodings.
  pose proof (byte_of_int_range _ _ Hhops) as Hrange.
  apply int_of_byte_of_int in Htag, Hhops.
  unfold validate in Hvalid.
  destruct (negb _); [discriminate Hvalid |].
  bind_inv Hvalid as okl Hl. bind_inv Hvalid as okp Hp. destruct okl, okp.
  apply check_address_Ok in Hl, Hp.
  destruct Hl as (l & Hl & Hlm), Hp as (p & Hp & Hpm).
  injection Hl as <-. injection Hp as <-.
  repeat split; try assumption; try lia.
  cbv beta iota delta [data_of].
  simpl app. rewrite !len_cons, !len_app, !IPv6Address_packed_len. lia.
Qed.

(** *** Exact consumption *)

Lemma save_registered_nonempty (x : Message) (saved : byteslike) :
  registered_instance x = true ->
  save x = Ok saved ->
  is_bytes saved = false /\ len (data_of saved) <> 0.
Proof.
  intros Hreg Hsave.
  destruct x as [t d | variant tid options | variant t hops link peer options];
    [discriminate Hreg | |].
  - apply save_ClientServerMessage_Ok in Hsave.
    destruct Hsave as (_ & tid' & tag & encodings & _ & _ & _ & _ & ->).
    split; [reflexivity |]. cbv beta iota delta [data_of].
    simpl app. rewrite len_cons. pose proof (len_nonneg (tid' ++ List.concat encodings)). lia.
  - apply save_RelayServerMessage_Ok in Hsave.
    destruct Hsave as (_ & tag & hb & l & p & encodings & _ & _ & _ & _ & _ & ->).
    split; [reflexivity |]. cbv beta iota delta [data_of].
    simpl app. rewrite len_cons.
    pose proof (len_nonneg (hb :: packed l ++ packed p ++ List.concat encodings)). lia.
Qed.

(** [parse] does not return from a [bytearray]: the transaction id or
    the link address it slices out is one too, and is refused. *)
Lemma parse_Bytearray (fuel : nat) (buffer : byteslike) (offset : Z) (length : option Z)
    (r : Z * Message) :
  is_bytes buffer = false ->
  parse fuel buffer offset length <> Ok r.
Proof.
  intros Hkind H. destruct r as [n m].
  unfold parse in H. bind_inv H as klass Hklass. bind_inv H as element Helement.
  bind_inv H as loaded Hload. destruct loaded as [n' m']. injection H as <- <-.
  destruct klass as [| variant | variant]; [discriminate Helement | |];
    simpl in Helement; injection Helement as <-; simpl in Hload.
  - unfold ClientServerMessage_load_from in Hload. cbv zeta in Hload.
    bind_inv Hload as tag Htag. destruct (negb _); [discriminate |].
    bind_inv Hload as loop Hloop. destruct loop as [options my_offset].
    bind_inv Hload as valid Hvalid. destruct valid.
    destruct (validate_transaction_id _ _ _ Hvalid) as (tid & Htid & _).
    apply sliced_Bytes in Htid. destruct Htid as [Htid _].
    rewrite Htid in Hkind. discriminate Hkind.
  - unfold RelayServerMessage_load_from in Hload. cbv zeta in Hload.
    bind_inv Hload as tag Htag. bind_inv Hload as hops Hhops.
    bind_inv Hload as link Hlink.
    apply IPv6Address_new_Ok in Hlink. destruct Hlink as [Hlink _].
    apply sliced_Bytes in Hlink. destruct Hlink as [Hlink _].
    rewrite Hlink in Hkind. discriminate Hkind.
Qed.

(** X18: for a saved instance of a registered class whose options each
    keep the option contract, [parse] reads the instance back out of a
    [bytes] buffer that holds the saved bytes at any offset, and consumes
    exactly the saved length: with that length declared, whatever follows
    the saved bytes in the buffer, and with no length declared when the
    saved bytes end the buffer. On the [bytearray] that [save] returned,
    [parse] does not return, whatever the declared length. *)
Theorem parse_consumes_what_was_saved (x : Message) (saved : byteslike) (pre rest : bytes)
    (fuel : nat) :
  Forall option_codec (options_of x) ->
  registered_instance x = true ->
  save x = Ok saved ->
  (List.length (options_of x) <= fuel)%nat ->
  parse fuel (Bytes (pre ++ data_of saved ++ rest)) (len pre) (Some (len (data_of saved)))
  = Ok (len (data_of saved), x) /\
  parse fuel (Bytes (pre ++ data_of saved)) (len pre) None = Ok (len (data_of saved), x) /\
  forall length r, parse fuel saved 0 length <> Ok r.
Proof.
  intros Hcodec Hreg Hsave Hfuel.
  destruct (save_registered_nonempty x saved Hreg Hsave) as [Hkind Hpos].
  split; [apply parse_saved; assumption |]. split.
  - pose proof (parse_saved x saved pre [] fuel Hcodec Hreg Hsave Hfuel) as H.
    rewrite app_nil_r in H. rewrite <- H. apply parse_or_else.
    simpl data_of. unfold or_else. rewrite len_app.
    destruct (Z.eqb_spec (len (data_of saved)) 0); [contradiction | lia].
  - intros length r. apply parse_Bytearray. exact Hkind.
Qed.

(** *** Validation *)

Lemma bind_unit_Ok (m k : outcome unit) : (m ;;; k) = Ok tt <-> m = Ok tt /\ k = Ok tt.
Proof.
  destruct m as [[] | e |]; simpl; split; try discriminate; try tauto;
    intros [H _]; discriminate H.
Qed.

Lemma validate_options_Ok (options : list Option) :
  validate_options options = Ok tt <->
  Forall (fun opt => Option_validate opt = Ok tt) options.
Proof.
  induction options as [| opt rest IH]; simpl.
  - split; [constructor | reflexivity].
  - rewrite bind_unit_Ok, IH. split.
    + intros [Hopt Hrest]. constructor; assumption.
    + intros H. inversion H; subst. split; assumption.
Qed.

Lemma validate_ClientServerMessage_Ok (variant : ClientServerVariant)
    (transaction_id : byteslike) (options : list Option) :
  let self := ClientServerMessage variant transaction_id options in
  validate self = Ok tt <->
  is_bytes transaction_id = true /\
  len (data_of transaction_id) = 3 /\
  self_validate_contains self = Ok tt /\
  Forall (fun opt => Option_validate opt = Ok tt) options /\
  NoDup (recorded_iaids self options).
Proof.
  intros self. unfold self at 1. unfold validate. fold self.
  destruct (is_bytes transaction_id); cbv beta iota delta [negb orb];
    [| split; [discriminate | intros [H _]; discriminate H]].
  destruct (Z.eqb_spec (len (data_of transaction_id)) 3) as [Hlen | Hlen].
  - rewrite !bind_unit_Ok, validate_options_Ok, check_iaids_Ok. split.
    + intros (Hc & Hv & Hn & _). auto.
    + intros (_ & _ & Hc & Hv & Hn). repeat split; try assumption. intros k i _ [].
  - split; [discriminate | intros (_ & H & _); contradiction].
Qed.

(** X19: a client-server message passes [validate] exactly when its
    transaction id is a [bytes] object of 3 bytes, [validate_contains]
    accepts its options, every option passes its own [validate], and no
    (classified kind, iaid) pair is recorded twice, where an option
    without [iaid] or with a falsy [iaid] records nothing. *)
Theorem validate_ClientServerMessage_passes (variant : ClientServerVariant)
    (transaction_id : byteslike) (options : list Option) :
  validate (ClientServerMessage variant transaction_id options) = Ok tt <->
  is_bytes transaction_id = true /\
  len (data_of transaction_id) = 3 /\
  self_validate_contains (ClientServerMessage variant transaction_id options) = Ok tt /\
  Forall (fun opt => Option_validate opt = Ok tt) options /\
  NoDup (recorded_iaids (ClientServerMessage variant transaction_id options) options).
Proof. apply validate_ClientServerMessage_Ok. Qed.

(** X20: a client-server message that holds two options of one
    classified kind with the same [iaid], a truthy one, does not pass
    [validate], and so is not saved either. *)
Theorem duplicate_iaid_is_refused (variant : ClientServerVariant)
    (transaction_id : byteslike) (before between after : list Option)
    (first second : Option) (value : IAID) :
  let options := before ++ first :: between ++ second :: after in
  let self := ClientServerMessage variant transaction_id options in
  iaid first = Some value ->
  iaid second = Some value ->
  IAID_truth value = true ->
  get_class self first = get_class self second ->
  validate self <> Ok tt /\ forall saved, save self <> Ok saved.
Proof.
  intros options self Hfirst Hsecond Hvalue Hclass.
  assert (validate self <> Ok tt) as Hinvalid.
  { intros Hvalid. apply validate_ClientServerMessage_Ok in Hvalid.
    destruct Hvalid as (_ & _ & _ & _ & Hnodup).
    apply (check_iaids_duplicate self before between after first second value
             Hfirst Hsecond Hvalue Hclass).
    apply check_iaids_Ok. split; [exact Hnodup | intros k i _ []]. }
  split; [exact Hinvalid |].
  intros saved Hsave. apply Hinvalid. unfold save in Hsave.
  bind_inv Hsave as valid Hvalid. destruct valid. exact Hvalid.
Qed.

(** *** Looking options up *)

Lemma first_of_type_filter (options : list Option) (klass : OptionClass) :
  first_of_type options klass = hd_error (filter (fun opt => isinstance opt klass) options).
Proof.
  induction options as [| opt rest IH]; simpl; [reflexivity |].
  destruct (isinstance opt klass); [reflexivity | exact IH].
Qed.

(** X21: on a client-server or relay message, [get_option_of_type]
    returns the first of the options that [get_options_of_type] returns,
    which are the options of the message that are instances of the class,
    in their order; it returns [None] exactly when no option is an
    instance of the class. *)
Theorem get_option_of_type_first (self : Message) (klass : OptionClass) :
  type_of self <> class_UnknownMessage ->
  exists matching,
    get_options_of_type self klass = Ok matching /\
    matching = filter (fun opt => isinstance opt klass) (options_of self) /\
    get_option_of_type self klass = Ok (hd_error matching) /\
    (get_option_of_type self klass = Ok None <->
     forall opt, In opt (options_of self) -> isinstance opt klass = false).
Proof.
  intros Hclass.
  exists (filter (fun opt => isinstance opt klass) (options_of self)).
  assert (get_option_of_type self klass
          = Ok (hd_error (filter (fun opt => isinstance opt klass) (options_of self))))
    as Hfirst.
  { destruct self; [contradiction Hclass; reflexivity | |]; simpl;
      rewrite first_of_type_filter; reflexivity. }
  split; [destruct self; [contradiction Hclass; reflexivity | |]; reflexivity |].
  split; [reflexivity |]. split; [exact Hfirst |].
  rewrite Hfirst. split.
  - intros H opt Hin. injection H as H.
    destruct (isinstance opt klass) eqn:E; [| reflexivity].
    assert (In opt (filter (fun opt => isinstance opt klass) (options_of self))) as Hf
        by (apply filter_In; auto).
    destruct (filter _ _); [contradiction Hf | discriminate H].
  - intros H. f_equal.
    destruct (filter (fun opt => isinstance opt klass) (options_of self)) as [| opt rest] eqn:E;
      [reflexivity |].
    assert (In opt (filter (fun opt => isinstance opt klass) (options_of self))) as Hf
        by (rewrite E; left; reflexivity).
    apply filter_In in Hf. destruct Hf as [Hin Hinst].
    rewrite (H opt Hin) in Hinst. discriminate Hinst.
Qed.

(** X22: for the class of the relay message options, the property
    [relayed_message] of a relay message is the message inside the option
    that [get_option_of_type] returns, and [None] when that returns
    [None]. *)
Theorem relayed_message_get_option_of_type (self : Message) (klass : OptionClass) :
  (forall opt, isinstance opt klass = true <-> exists m, opt = RelayMessageOption m) ->
  (exists variant, type_of self = class_RelayServerMessage variant) ->
  get_option_of_type self klass
  = Ok (option_map RelayMessageOption (relayed_message self)).
Proof.
  intros Hrelay [variant Hclass].
  destruct self as [t d | v tid options | v t hops link peer options];
    try discriminate Hclass.
  unfold get_option_of_type, relayed_message. simpl options_of. f_equal.
  clear Hclass. induction options as [| opt rest IH]; simpl; [reflexivity |].
  destruct opt as [m | o].
  - replace (isinstance (RelayMessageOption m) klass) with true
      by (symmetry; apply Hrelay; eexists; reflexivity).
    reflexivity.
  - destruct (isinstance (OtherOption o) klass) eqn:E; [| exact IH].
    apply Hrelay in E. destruct E as [m Hm]. discriminate Hm.
Qed.

(** *** The option loop ends *)

(** X23: the option loop of [load_from] ends when parsing an option
    does and every option parsed from the buffer reports at least one
    byte used: it returns or raises within as many passes as there are
    bytes between [my_offset] and [max_length], and when it returns it
    has appended at most that many options to the ones it started with. *)
Theorem parse_options_ends (fuel : nat) (buffer : byteslike) (offset max_length : Z)
    (existing : list Option) (my_offset : Z) :
  (forall at_offset, Option_parse buffer at_offset <> NoFuel) ->
  (forall at_offset used_buffer opt,
      Option_parse buffer at_offset = Ok (used_buffer, opt) -> 0 < used_buffer) ->
  (Z.to_nat (max_length - my_offset) <= fuel)%nat ->
  (exists parsed n,
      parse_options fuel buffer offset max_length existing my_offset
      = Ok (existing ++ parsed, n) /\
      len parsed <= Z.max 0 (max_length - my_offset)) \/
  raises (parse_options fuel buffer offset max_length existing my_offset).
Proof.
  intros Hends Hused. revert existing my_offset.
  induction fuel as [| fuel IH]; intros existing my_offset Hfuel; simpl.
  - destruct (Z.gtb_spec max_length my_offset) as [Hgt | Hle]; [lia |].
    left. exists [], my_offset. rewrite app_nil_r, len_nil. split; [reflexivity | lia].
  - destruct (Z.gtb_spec max_length my_offset) as [Hgt | Hle].
    + destruct (Option_parse buffer (offset + my_offset)) as [[used_buffer opt] | e |] eqn:E;
        cbv beta iota delta [bind].
      * apply Hused in E.
        destruct (IH (existing ++ [opt]) (my_offset + used_buffer) ltac:(lia))
          as [(parsed & n & Hloop & Hcount) | Hraise]; [left | right; exact Hraise].
        exists (opt :: parsed), n. rewrite Hloop, <- app_assoc. split; [reflexivity |].
        rewrite len_cons. lia.
      * right. exists e. reflexivity.
      * contradiction (Hends _ E).
    + left. exists [], my_offset. rewrite app_nil_r, len_nil. split; [reflexivity | lia].
Qed.

(** X24: when the option parsed at the place the loop has reached
    reports no byte used, and the buffer is not changed by the loop, the
    loop does not end: every pass parses the same option at the same
    place and appends it, whatever the number of passes allowed. *)
Theorem parse_options_stuck (fuel : nat) (buffer : byteslike) (offset max_length : Z)
    (existing : list Option) (my_offset : Z) (opt : Option) :
  max_length > my_offset ->
  Option_parse buffer (offset + my_offset) = Ok (0, opt) ->
  parse_options fuel buffer offset max_length existing my_offset = NoFuel.
Proof.
  intros Hgt Hzero. revert existing.
  induction fuel as [| fuel IH]; intros existing; simpl;
    destruct (Z.gtb_spec max_length my_offset) as [_ | Hle]; try lia; [reflexivity |].
  rewrite Hzero. cbv beta iota delta [bind]. rewrite Z.add_0_r. apply IH.
Qed.

(** *** Wrapping a response *)

Lemma wrap_options_Ok_chain (response : Message) (options my_options : list Option)
    (result : list Option) :
  Forall (relayed_P (fun inner =>
                       forall reply, wrap_response inner response = Ok reply ->
                                     relay_chain inner = true)) options ->
  wrap_options (fun inner => wrap_response inner response) response options my_options
  = Ok result ->
  forallb
    (fun opt =>
       echo_to_relay opt ||
       match opt with
       | RelayMessageOption inner => is_ClientServerMessage inner || relay_chain inner
       | OtherOption _ => true
       end)
    options = true.
Proof.
  intros Hall. revert my_options.
  induction Hall as [| opt rest Hopt _ IH]; intros my_options Hloop; [reflexivity |].
  simpl in Hloop. simpl forallb. destruct (echo_to_relay opt).
  - simpl. exact (IH _ Hloop).
  - destruct opt as [inner | o]; [| simpl; exact (IH _ Hloop)].
    destruct inner as [t d | variant tid inner_options
                      | variant t hops link peer inner_options];
      [discriminate Hloop | simpl; exact (IH _ Hloop) |].
    destruct variant; [| discriminate Hloop].
    bind_inv Hloop as wrapped Hwrapped.
    unfold relayed_P in Hopt. rewrite (Hopt wrapped Hwrapped). simpl. exact (IH _ Hloop).
Qed.

Lemma wrap_response_Ok_chain (self response reply : Message) :
  wrap_response self response = Ok reply -> relay_chain self = true.
Proof.
  revert reply.
  induction self as [t d | variant tid options _
                    | variant t hops link peer options IH] using Message_nested_ind;
    intros reply Hwrap; try discriminate Hwrap.
  destruct variant; [| discriminate Hwrap].
  rewrite wrap_response_RelayForwardMessage in Hwrap. bind_inv Hwrap as my_options Hloop.
  rewrite relay_chain_RelayForwardMessage.
  exact (wrap_options_Ok_chain response options [] my_options IH Hloop).
Qed.

(** X25: [wrap_response] returns exactly on a relay chain: a
    relay-forward message each of whose relay message options, unless it
    is marked [echo_to_relay], wraps a client-server message or a further
    relay chain. On every other message it raises. *)
Theorem wrap_response_returns_iff_relay_chain (self response : Message) :
  ((exists reply, wrap_response self response = Ok reply) <-> relay_chain self = true) /\
  (raises (wrap_response self response) <-> relay_chain self = false).
Proof.
  assert ((exists reply, wrap_response self response = Ok reply) <-> relay_chain self = true)
    as Hiff.
  { split.
    - intros [reply Hwrap]. exact (wrap_response_Ok_chain self response reply Hwrap).
    - intros Hchain. destruct (wrap_response_chain_depth response self Hchain)
        as (reply & Hwrap & _).
      exists reply. exact Hwrap. }
  split; [exact Hiff |]. split.
  - intros [e Hraise]. destruct (relay_chain self) eqn:Hchain; [| reflexivity].
    destruct Hiff as [_ Hreturns]. destruct (Hreturns eq_refl) as [reply Hwrap].
    rewrite Hwrap in Hraise. discriminate Hraise.
  - intros Hchain. pose proof (wrap_response_no_loop self response) as Hends.
    destruct (wrap_response self response) as [reply | e |] eqn:Hwrap.
    + apply wrap_response_Ok_chain in Hwrap. rewrite Hwrap in Hchain. discriminate Hchain.
    + exists e. reflexivity.
    + contradiction Hends. reflexivity.
Qed.

Lemma innermost_ClientServerMessage (m : Message) :
  is_ClientServerMessage m = true -> innermost m = m.
Proof. destruct m; [discriminate | reflexivity | discriminate]. Qed.

Lemma wrap_options_innermost (response : Message) (options : list Option) :
  (forall m, echo_to_relay (RelayMessageOption m) = false) ->
  is_ClientServerMessage response = true ->
  Forall (relayed_P (fun inner =>
                       is_ClientServerMessage (innermost inner) = true ->
                       forall reply, wrap_response inner response = Ok reply ->
                                     innermost reply = response)) options ->
  forall (my_options : list Option) (self reply : Message),
    wrap_options (fun inner => wrap_response inner response) response options []
    = Ok my_options ->
    is_ClientServerMessage self = false ->
    is_ClientServerMessage (innermost_of innermost options self) = true ->
    innermost_of innermost my_options reply = response.
Proof.
  intros Hnever Hresponse Hall.
  induction Hall as [| opt rest Hopt _ IH]; intros my_options self reply Hloop Hself Hclient.
  - simpl in Hclient. rewrite Hself in Hclient. discriminate Hclient.
  - simpl in Hloop. destruct opt as [inner | o].
    + rewrite Hnever in Hloop. simpl in Hclient.
      destruct inner as [t d | variant tid inner_options
                        | variant t hops link peer inner_options];
        [discriminate Hloop | |].
      * rewrite wrap_options_acc in Hloop. bind_inv Hloop as my_rest Hrest.
        injection Hloop as <-. simpl.
        apply innermost_ClientServerMessage. exact Hresponse.
      * destruct variant; [| discriminate Hloop].
        bind_inv Hloop as wrapped Hwrapped.
        rewrite wrap_options_acc in Hloop. bind_inv Hloop as my_rest Hrest.
        injection Hloop as <-. simpl innermost_of.
        unfold relayed_P in Hopt. exact (Hopt Hclient wrapped Hwrapped).
    + simpl in Hclient. destruct (echo_to_relay (OtherOption o)).
      * rewrite wrap_options_acc in Hloop. bind_inv Hloop as my_rest Hrest.
        injection Hloop as <-. simpl innermost_of.
        exact (IH my_rest self reply Hrest Hself Hclient).
      * exact (IH my_options self reply Hloop Hself Hclient).
Qed.

(** X26: when no relay message option is marked [echo_to_relay],
    the message at the bottom of what [wrap_response] returns is the
    response: following [relayed_message] from the reply for as long as
    there is one ends at [response], for a client-server response and a
    message that holds a client-server message at its own bottom. *)
Theorem wrap_response_innermost (self response reply : Message) :
  (forall m, echo_to_relay (RelayMessageOption m) = false) ->
  is_ClientServerMessage response = true ->
  is_ClientServerMessage (innermost self) = true ->
  wrap_response self response = Ok reply ->
  innermost reply = response.
Proof.
  intros Hnever Hresponse. revert reply.
  induction self as [t d | variant tid options _
                    | variant t hops link peer options IH] using Message_nested_ind;
    intros reply Hclient Hwrap; try discriminate Hwrap.
  destruct variant; [| discriminate Hwrap].
  rewrite wrap_response_RelayForwardMessage in Hwrap. bind_inv Hwrap as my_options Hloop.
  injection Hwrap as <-.
  change (innermost_of innermost my_options
            (RelayServerMessage RelayReplyMessage MSG_RELAY_REPL hops link peer my_options)
          = response).
  apply (wrap_options_innermost response options Hnever Hresponse) with
    (self := RelayServerMessage RelayForwardMessage t hops link peer options);
    [| exact Hloop | reflexivity | exact Hclient].
  revert IH. apply Forall_impl. intros opt. destruct opt as [inner | o]; simpl; [| auto].
  intros Hinner Hbottom wrapped Hwrapped. exact (Hinner wrapped Hbottom Hwrapped).
Qed.

(** *** Equality *)

Lemma list_eqb_spec {A : Type} (eqb : A -> A -> bool) (l l' : list A) :
  (forall a b, eqb a b = true <-> a = b) ->
  list_eqb eqb l l' = true <-> l = l'.
Proof.
  intros Heqb. revert l'. induction l as [| a rest IH]; intros [| a' rest']; simpl;
    try (split; [discriminate | discriminate]); [tauto |].
  rewrite andb_true_iff, Heqb, IH. split.
  - intros [-> ->]. reflexivity.
  - intros H. injection H as -> ->. auto.
Qed.

Lemma bytes_eqb_spec (a b : bytes) : bytes_eqb a b = true <-> a = b.
Proof.
  apply list_eqb_spec. intros x y. split; [apply Byte.byte_dec_bl | apply Byte.byte_dec_lb].
Qed.

Lemma packed_inj (a b : IPv6Address) : packed a = packed b -> a = b.
Proof.
  destruct a as [a Ha], b as [b Hb]. simpl. intros ->. f_equal.
  apply UIP_dec. apply bool_dec.
Qed.

Lemma address_eqb_spec (a b : option IPv6Address) : address_eqb a b = true <-> a = b.
Proof.
  destruct a as [a |], b as [b |]; simpl;
    try (split; [discriminate | discriminate]); [| tauto].
  rewrite bytes_eqb_spec. split.
  - intros H. apply packed_inj in H. subst. reflexivity.
  - intros H. injection H as ->. reflexivity.
Qed.

Lemma same_type_spec (a b : MessageClass) : same_type a b = true <-> a = b.
Proof.
  unfold same_type. destruct (MessageClass_eq_dec a b); split; auto; discriminate.
Qed.

Section Equality.

Variable Opt_eqb : Opt -> Opt -> bool.

Hypothesis Opt_eqb_spec : forall a b, Opt_eqb a b = true <-> a = b.

Local Abbreviation forget := (fun opt : Option =>
  match opt with
  | RelayMessageOption inner => RelayMessageOption (without_relay_tags inner)
  | OtherOption o => OtherOption o
  end).

Lemma options_eqb_spec (eqb : Message -> Message -> bool) (l l' : list Option) :
  Forall (relayed_P (fun m => forall m', eqb m m' = true
                                         <-> without_relay_tags m = without_relay_tags m')) l ->
  options_eqb Opt_eqb eqb l l' = true <-> map forget l = map forget l'.
Proof.
  intros Hall. revert l'.
  induction Hall as [| opt rest Hopt _ IH]; intros [| opt' rest']; simpl;
    try (split; [discriminate | discriminate]); [tauto |].
  rewrite andb_true_iff, IH.
  assert (match opt, opt' with
          | RelayMessageOption m, RelayMessageOption m' => eqb m m'
          | OtherOption o, OtherOption o' => Opt_eqb o o'
          | _, _ => false
          end = true <-> forget opt = forget opt') as Hhead.
  { destruct opt as [m | o], opt' as [m' | o'];
      try (split; [discriminate | discriminate]).
    - unfold relayed_P in Hopt. rewrite Hopt. split.
      + intros ->. reflexivity.
      + intros H. injection H as H. exact H.
    - rewrite Opt_eqb_spec. split.
      + intros ->. reflexivity.
      + intros H. injection H as H. exact H. }
  rewrite Hhead. split.
  - intros [-> ->]. reflexivity.
  - intros H. injection H as H1 H2. auto.
Qed.

(** X27: [==] between two messages, when [==] between two options
    other than relay message options holds for equal options only, holds
    exactly when the two messages are the same once the [message_type] of
    every relay message in them is left out: [__eq__] compares the
    parameters of [__init__], and [message_type] is none of a relay
    message's. (Of [message_data] and [transaction_id] it is the bytes
    that are compared: [==] does not tell a [bytearray] from a [bytes]
    object.) *)
Theorem Message_eqb_without_relay_tags (x y : Message) :
  Message_eqb Opt_eqb x y = true <-> without_relay_tags x = without_relay_tags y.
Proof.
  revert y.
  induction x as [t d | variant tid options IH
                 | variant t hops link peer options IH] using Message_nested_ind;
    intros [t' d' | variant' tid' options' | variant' t' hops' link' peer' options'];
    simpl; try (split; [discriminate | discriminate]).
  - unfold byteslike_eqb. rewrite andb_true_iff, Z.eqb_eq, bytes_eqb_spec. split.
    + intros [-> ->]. reflexivity.
    + intros H. injection H as -> ->. auto.
  - unfold byteslike_eqb.
    rewrite !andb_true_iff, same_type_spec, bytes_eqb_spec,
      (options_eqb_spec _ options options' IH). split.
    + intros [[Hv ->] ->]. injection Hv as ->. reflexivity.
    + intros H. injection H as -> -> ->. auto.
  - rewrite !andb_true_iff, same_type_spec, Z.eqb_eq, !address_eqb_spec,
      (options_eqb_spec _ options options' IH). split.
    + intros [[[[Hv ->] ->] ->] ->]. injection Hv as ->. reflexivity.
    + intros H. injection H as -> -> -> -> ->. auto.
Qed.

End Equality.

End Messages.

End MessagesProperties.


(** ** Instances over the sample catalogue *)

Module SampleProperties.

Import Parsing Messages Sample Methods SampleMethods.
Import PyFacts MessagesFacts SampleFacts ParsingProperties MessagesProperties.

Lemma Opt_eqb_spec (a b : Opt) : Opt_eqb a b = true <-> a = b.
Proof.
  destruct a as [i | d | t d], b as [i' | d' | t' d']; simpl;
    try (split; [discriminate | discriminate]).
  - rewrite Z.eqb_eq. split; [intros ->; reflexivity | intros H; injection H as ->; reflexivity].
  - rewrite bytes_eqb_spec.
    split; [intros ->; reflexivity | intros H; injection H as ->; reflexivity].
  - rewrite andb_true_iff, Z.eqb_eq, bytes_eqb_spec.
    split; [intros [-> ->]; reflexivity | intros H; injection H as -> ->; auto].
Qed.

Lemma getitem_ends (buffer : bytes) (i : Z) : getitem buffer i <> NoFuel.
Proof.
  unfold getitem. destruct (_ && _); [| discriminate].
  destruct (nth_error _ _); discriminate.
Qed.

Lemma Opt_parse_ends (buffer : byteslike) (offset : Z) : Opt_parse buffer offset <> NoFuel.
Proof.
  unfold Opt_parse.
  pose proof (getitem_ends (data_of buffer) offset) as H0.
  destruct (getitem (data_of buffer) offset) as [option_type | e |];
    cbv beta iota delta [bind]; [| discriminate | contradiction H0; reflexivity].
  pose proof (getitem_ends (data_of buffer) (offset + 1)) as H1.
  destruct (getitem (data_of buffer) (offset + 1)) as [option_len | e |];
    cbv beta iota delta [bind]; [| discriminate | contradiction H1; reflexivity].
  destruct (negb _); [discriminate |].
  unfold decode. destruct (option_type =? OPTION_IA_NA).
  - destruct (slice _ _ _) as [| b [| b' rest]]; discriminate.
  - destruct (option_type =? OPTION_INTERFACE_ID); discriminate.
Qed.

Lemma Opt_parse_used (buffer : byteslike) (offset used_buffer : Z) (opt : Option Opt) :
  Opt_parse buffer offset = Ok (used_buffer, opt) -> 0 < used_buffer.
Proof.
  unfold Opt_parse. intros H.
  bind_inv H as option_type Htype. bind_inv H as option_len Hlen.
  destruct (negb _); [discriminate H |].
  bind_inv H as o Ho. injection H as <- _.
  apply getitem_range in Hlen. destruct option_len; [reflexivity | reflexivity | lia].
Qed.

(** X4, an instance: an interface id among options of which only the
    IA_NA kind is registered. *)
Lemma validate_contains_first_unclassified_witness :
  validate_contains Kind_eq_dec Opt_isinstance Kind_name Opt_type_name "SolicitMessage"
    [(class_IANAOption, (0, infinite))]
    ([OtherOption (IANAOption 1)] ++ OtherOption (InterfaceIdOption []) :: [])
  = Raise (ValueError ("SolicitMessage" ++ " cannot contain "
                         ++ Opt_type_name (OtherOption (InterfaceIdOption [])))%string).
Proof.
  apply (validate_contains_first_unclassified Kind_eq_dec Opt_isinstance Kind_name
           Opt_type_name "SolicitMessage" [(class_IANAOption, (0, infinite))]
           [OtherOption (IANAOption 1)] [] (OtherOption (InterfaceIdOption []))).
  - constructor; [discriminate | constructor].
  - reflexivity.
Defined.

(** X5, an instance: the options of a Solicit message. *)
Lemma validate_contains_may_contain_witness :
  Forall (fun element =>
            may_contain Opt_isinstance
              (Opt_may_contain (class_ClientServerMessage SolicitMessage)) element = true)
    (options_of solicit).
Proof.
  apply (validate_contains_may_contain Kind_eq_dec Opt_isinstance Kind_name Opt_type_name
           "SolicitMessage" (Opt_may_contain (class_ClientServerMessage SolicitMessage))
           (options_of solicit)).
  vm_compute. reflexivity.
Defined.

(** X7, an instance: the interface id kind registered after the IA_NA
    kind. *)
Lemma add_may_contain_then_classify_witness :
  get_element_class Opt_isinstance
    (add_may_contain Kind_eq_dec [(class_IANAOption, (0, 1))] class_InterfaceIdOption 0 1)
    (OtherOption (InterfaceIdOption []))
  = if 1 <? 1 then None else Some class_InterfaceIdOption.
Proof.
  apply (add_may_contain_then_classify Kind_eq_dec Opt_isinstance
           [(class_IANAOption, (0, 1))] class_InterfaceIdOption 0 1
           (OtherOption (InterfaceIdOption []))).
  - constructor; [split; [simpl; lia | reflexivity] | constructor].
  - reflexivity.
Defined.

(** X8, an instance: the tag of a Solicit message. *)
Lemma determine_class_dispatch_witness :
  exists klass,
    determine_class (Bytes solicit_saved) 0 = Ok klass /\
    ((1 <= 1 <= 13 /\ klass <> class_UnknownMessage /\ class_message_type klass = 1) \/
     ((1 < 1 \/ 13 < 1) /\ klass = class_UnknownMessage)).
Proof. apply (determine_class_dispatch (Bytes solicit_saved) 0 1). reflexivity. Defined.

(** X9, an instance: the offset just past a saved Solicit message. *)
Lemma parse_outside_buffer_witness :
  parse (catalogue := catalogue) 2 (Bytes solicit_saved) 11 None
  = Raise (IndexError "index out of range").
Proof.
  apply (parse_outside_buffer (catalogue := catalogue) 2 (Bytes solicit_saved) 11 None).
  left. vm_compute. discriminate.
Defined.

(** X10, an instance: a saved Solicit message. *)
Lemma parse_returns_valid_registered_witness :
  exists tag,
    getitem (data_of (Bytes solicit_saved)) 0 = Ok tag /\
    1 <= tag <= 13 /\
    class_message_type (type_of solicit) = tag /\
    registered_instance solicit = true /\
    validate solicit = Ok tt /\
    is_bytes (Bytes solicit_saved) = true.
Proof.
  apply (parse_returns_valid_registered (catalogue := catalogue) 2 (Bytes solicit_saved) 0
           (Some 11) 11 solicit).
  vm_compute. reflexivity.
Defined.

(** X11, an instance: a declared length of 0 and no declared length. *)
Lemma parse_length_or_remaining_witness :
  parse (catalogue := catalogue) 2 (Bytes solicit_saved) 0 (Some 0)
  = parse (catalogue := catalogue) 2 (Bytes solicit_saved) 0 None /\
  parse (catalogue := catalogue) 2 (Bytes solicit_saved) 0 (Some 0)
  = parse (catalogue := catalogue) 2 (Bytes solicit_saved) 0 None /\
  forall self : Msg,
    type_of self <> class_UnknownMessage ->
    load_from 2 self (Bytes solicit_saved) 0 (Some 0)
    = load_from 2 self (Bytes solicit_saved) 0 None.
Proof.
  apply (parse_length_or_remaining (catalogue := catalogue) 2 (Bytes solicit_saved) 0
           (Some 0) None).
  reflexivity.
Defined.

(** X12, an instance: a Solicit message loaded from what one saved. *)
Lemma load_from_reads_whole_header_witness :
  0 + header_length
        (ClientServerMessage (Opt := Opt) SolicitMessage (Bytes [x00; x00; x00]) [])
  <= len (data_of (Bytes solicit_saved)) /\
  header_length (ClientServerMessage (Opt := Opt) SolicitMessage (Bytes [x00; x00; x00]) [])
  <= 11 /\
  or_else (Some 11) (len (data_of (Bytes solicit_saved)) - 0) <= 11.
Proof.
  apply (load_from_reads_whole_header (catalogue := catalogue) 2
           (ClientServerMessage SolicitMessage (Bytes [x00; x00; x00]) []) solicit
           (Bytes solicit_saved) 0 (Some 11) 11).
  - lia.
  - discriminate.
  - vm_compute. reflexivity.
Defined.

(** X13, an instance: a Solicit message loading the tag of an
    Advertise message. *)
Lemma ClientServerMessage_load_from_wrong_tag_witness :
  load_from (catalogue := catalogue) 0
    (ClientServerMessage SolicitMessage (Bytes [x00; x00; x00]) [])
    (Bytes [x02; x00; x00; x00]) 0 (Some 4)
  = Raise (ValueError ("The provided buffer does not contain "
                         ++ ClientServer_name SolicitMessage ++ " data")%string).
Proof.
  apply (ClientServerMessage_load_from_wrong_tag (catalogue := catalogue) 0 SolicitMessage
           (Bytes [x00; x00; x00]) [] (Bytes [x02; x00; x00; x00]) 0 (Some 4) 2).
  - reflexivity.
  - vm_compute. discriminate.
Defined.

(** X14, an instance: three bytes under an unregistered tag. *)
Lemma UnknownMessage_load_from_declared_witness :
  exists tag data,
    getitem [xff; x01; x02] 0 = Ok tag /\
    data = slice [xff; x01; x02] (0 + 1) (0 + 3) /\
    len data = Z.max 0 (Z.min (0 + 3) (len [xff; x01; x02]) - (0 + 1)) /\
    load_from (catalogue := catalogue) 0 (UnknownMessage 0 (Bytes []))
      (Bytes [xff; x01; x02]) 0 (Some 3)
    = Ok (3, UnknownMessage tag (Bytes data)) /\
    load_from (catalogue := catalogue) 0 (UnknownMessage 0 (Bytes []))
      (Bytearray [xff; x01; x02]) 0 (Some 3)
    = Raise (ValueError "Message data must consist of bytes").
Proof.
  apply (UnknownMessage_load_from_declared (catalogue := catalogue) 0
           (UnknownMessage 0 (Bytes [])) [xff; x01; x02] 0 3).
  - reflexivity.
  - vm_compute. split; [discriminate | reflexivity].
  - lia.
Defined.

(** X15, an instance: an unknown message, what it saves, and the
    saved bytes between other bytes. *)
Lemma UnknownMessage_save_load_from_witness :
  (exists tag,
      byte_of_int 255 = Ok tag /\
      Bytearray [xff; x01; x02] = Bytearray (tag :: data_of (Bytes [x01; x02]))) /\
  load_from (catalogue := catalogue) 0 (UnknownMessage 0 (Bytes []))
    (Bytes ([x00] ++ data_of (Bytearray [xff; x01; x02]) ++ [x09])) (len [x00])
    (Some (len (data_of (Bytearray [xff; x01; x02]))))
  = Ok (len (data_of (Bytearray [xff; x01; x02])), UnknownMessage 255 (Bytes [x01; x02])) /\
  load_from (catalogue := catalogue) 0 (UnknownMessage 0 (Bytes []))
    (Bytearray [xff; x01; x02]) 0 (Some (len (data_of (Bytearray [xff; x01; x02]))))
  = Raise (ValueError "Message data must consist of bytes").
Proof.
  apply (UnknownMessage_save_load_from (catalogue := catalogue) 0
           (UnknownMessage 0 (Bytes [])) 255 (Bytes [x01; x02]) (Bytearray [xff; x01; x02])
           [x00] [x09]).
  - reflexivity.
  - vm_compute. reflexivity.
Defined.

(** X16, an instance: a Solicit message with two options. *)
Lemma save_ClientServerMessage_layout_witness :
  exists tag encodings,
    int_of_byte tag = ClientServer_message_type SolicitMessage /\
    is_bytes (Bytes [x0a; x0b; x0c]) = true /\
    len (data_of (Bytes [x0a; x0b; x0c])) = 3 /\
    Forall2 (fun opt encoding => Option_save opt = Ok encoding) (options_of solicit)
      encodings /\
    Bytearray solicit_saved
    = Bytearray (tag :: data_of (Bytes [x0a; x0b; x0c]) ++ List.concat encodings) /\
    len (data_of (Bytearray solicit_saved)) = 4 + len (List.concat encodings).
Proof.
  apply (save_ClientServerMessage_layout (catalogue := catalogue) SolicitMessage
           (Bytes [x0a; x0b; x0c]) (options_of solicit) (Bytearray solicit_saved)).
  vm_compute. reflexivity.
Defined.

(** X17, an instance: a relay-forward message with one option. *)
Lemma save_RelayServerMessage_layout_witness :
  exists tag hops link peer encodings,
    int_of_byte tag = MSG_RELAY_FORW /\
    int_of_byte hops = 1 /\
    0 <= 1 < 256 /\
    Some loopback = Some link /\ is_multicast link = false /\
    Some unspecified = Some peer /\ is_multicast peer = false /\
    Forall2 (fun opt encoding => Option_save opt = Ok encoding)
      (options_of relay_forward) encodings /\
    Bytearray relay_forward_saved
    = Bytearray (tag :: hops :: packed link ++ packed peer ++ List.concat encodings) /\
    len (data_of (Bytearray relay_forward_saved)) = 34 + len (List.concat encodings).
Proof.
  apply (save_RelayServerMessage_layout (catalogue := catalogue) RelayForwardMessage
           MSG_RELAY_FORW 1 (Some loopback) (Some unspecified) (options_of relay_forward)
           (Bytearray relay_forward_saved)).
  vm_compute. reflexivity.
Defined.

(** X18, an instance: the bytes a relay-forward message saved, between
    other bytes and at the end of a buffer, and the [bytearray] it
    saved. *)
Lemma parse_consumes_what_was_saved_witness :
  parse (catalogue := catalogue) 1
    (Bytes ([x00] ++ data_of (Bytearray relay_forward_saved) ++ [x09])) (len [x00])
    (Some (len (data_of (Bytearray relay_forward_saved))))
  = Ok (len (data_of (Bytearray relay_forward_saved)), relay_forward) /\
  parse (catalogue := catalogue) 1
    (Bytes ([x00] ++ data_of (Bytearray relay_forward_saved))) (len [x00]) None
  = Ok (len (data_of (Bytearray relay_forward_saved)), relay_forward) /\
  forall length r,
    parse (catalogue := catalogue) 1 (Bytearray relay_forward_saved) 0 length <> Ok r.
Proof.
  apply (parse_consumes_what_was_saved (catalogue := catalogue) relay_forward
           (Bytearray relay_forward_saved) [x00] [x09] 1).
  - apply Forall_forall. intros opt _. apply sample_codec.
  - reflexivity.
  - vm_compute. reflexivity.
  - simpl. apply le_n.
Defined.

(** X20, an instance: two IA_NA options with the [iaid] 7 around an
    interface id. *)
Lemma duplicate_iaid_is_refused_witness :
  validate (catalogue := catalogue)
    (ClientServerMessage SolicitMessage (Bytes [x00; x00; x00])
       ([] ++ OtherOption (IANAOption 7)
           :: [OtherOption (InterfaceIdOption [])] ++ OtherOption (IANAOption 7) :: []))
  <> Ok tt /\
  forall saved,
    save (catalogue := catalogue)
      (ClientServerMessage SolicitMessage (Bytes [x00; x00; x00])
         ([] ++ OtherOption (IANAOption 7)
             :: [OtherOption (InterfaceIdOption [])] ++ OtherOption (IANAOption 7) :: []))
    <> Ok saved.
Proof.
  apply (duplicate_iaid_is_refused (catalogue := catalogue) SolicitMessage
           (Bytes [x00; x00; x00]) [] [OtherOption (InterfaceIdOption [])] []
           (OtherOption (IANAOption 7)) (OtherOption (IANAOption 7)) 7).
  - reflexivity.
  - reflexivity.
  - reflexivity.
  - reflexivity.
Defined.

(** X21, an instance: the IA_NA options of a Solicit message. *)
Lemma get_option_of_type_first_witness :
  exists matching,
    get_options_of_type solicit class_IANAOption = Ok matching /\
    matching = filter (fun opt => isinstance opt class_IANAOption) (options_of solicit) /\
    get_option_of_type solicit class_IANAOption = Ok (hd_error matching) /\
    (get_option_of_type solicit class_IANAOption = Ok None <->
     forall opt, In opt (options_of solicit) -> isinstance opt class_IANAOption = false).
Proof.
  apply (get_option_of_type_first (catalogue := catalogue) solicit class_IANAOption).
  discriminate.
Defined.

(** X22, an instance: the relay message option of a relay chain. *)
Lemma relayed_message_get_option_of_type_witness :
  get_option_of_type relay_chain_of_two class_RelayMessageOption
  = Ok (option_map RelayMessageOption (relayed_message relay_chain_of_two)).
Proof.
  apply (relayed_message_get_option_of_type (catalogue := catalogue) relay_chain_of_two
           class_RelayMessageOption).
  - intros opt. destruct opt as [m | o]; simpl; split.
    + intros _. exists m. reflexivity.
    + reflexivity.
    + discriminate.
    + intros [m H]. discriminate H.
  - exists RelayForwardMessage. reflexivity.
Defined.

(** X23, an instance: the options of a saved Solicit message. *)
Lemma parse_options_ends_witness :
  (exists parsed n,
      parse_options (catalogue := catalogue) 7 (Bytes solicit_saved) 0 11 [] 4
      = Ok ([] ++ parsed, n) /\
      len parsed <= Z.max 0 (11 - 4)) \/
  raises (parse_options (catalogue := catalogue) 7 (Bytes solicit_saved) 0 11 [] 4).
Proof.
  apply (parse_options_ends (catalogue := catalogue) 7 (Bytes solicit_saved) 0 11 [] 4).
  - intros at_offset. apply Opt_parse_ends.
  - intros at_offset used_buffer opt. apply Opt_parse_used.
  - vm_compute. repeat constructor.
Defined.

(** X24, an instance: the catalogue whose parser reports no byte
    used. *)
Lemma parse_options_stuck_witness :
  parse_options (catalogue := stalled) 5 (Bytes [x01]) 0 1 [] 0 = NoFuel.
Proof.
  apply (parse_options_stuck (catalogue := stalled) 5 (Bytes [x01]) 0 1 [] 0
           (OtherOption (UnknownOption 0 []))).
  - reflexivity.
  - reflexivity.
Defined.

(** X26, an instance: a relay chain of two relay-forward messages. *)
Lemma wrap_response_innermost_witness : innermost relay_reply_of_two = reply.
Proof.
  apply (wrap_response_innermost (catalogue := catalogue) relay_chain_of_two reply
           relay_reply_of_two).
  - intros m. reflexivity.
  - reflexivity.
  - reflexivity.
  - vm_compute. reflexivity.
Defined.

(** X27, an instance: two relay-forward messages that differ in
    their [message_type] only. *)
Lemma Message_eqb_without_relay_tags_witness :
  Message_eqb Opt_eqb relay_forward
    (RelayServerMessage RelayForwardMessage 99 1 (Some loopback) (Some unspecified)
       [OtherOption (InterfaceIdOption [x01])]) = true <->
  without_relay_tags relay_forward
  = without_relay_tags
      (RelayServerMessage RelayForwardMessage 99 1 (Some loopback) (Some unspecified)
         [OtherOption (InterfaceIdOption [x01])]).
Proof.
  apply (Message_eqb_without_relay_tags Opt_eqb Opt_eqb_spec relay_forward
           (RelayServerMessage RelayForwardMessage 99 1 (Some loopback) (Some unspecified)
              [OtherOption (InterfaceIdOption [x01])])).
Defined.

End SampleProperties.
